(** * homeserver-portal: the annotation mapper, the group filter and the
      two source adapters of [backend/main.go]

    The development embeds the later of the two revisions that [main.go]
    holds (the one with [Description], the fallback configuration path and
    [strings.EqualFold]).  Go strings are byte strings and are modelled as
    [string]; Go slices are lists (a nil slice and an empty slice are both
    [[]]: the program asks for their [len], and a slice of applications
    starts nil and only grows by [append], so it is nil exactly when it is
    empty); [map[string]string]
    is a [gmap string string] read with the zero value for a missing key.
    Calls to [log.Printf] are left out: nothing the program computes
    depends on them.  The functions that call [strings.TrimSpace] and
    [strings.EqualFold] come twice: with the ASCII path of the package,
    which computes, and, in the module [Go], over the package's own two
    functions, for what holds of names beyond ASCII as well. *)

From Stdlib Require Import String Ascii List NArith Bool Lia.
From stdpp Require Import base option list gmap strings.

Local Open Scope string_scope.
Local Open Scope list_scope.

(* ===================================================================== *)
(** ** The parts of Go's [strings] package the program calls *)
(* ===================================================================== *)

(** The package is not part of the repository.  The model follows its
    documented behaviour on ASCII input: the white space of [TrimSpace] is
    the table [asciiSpace] of the package, the letters of [EqualFold] are
    [A-Z] and [a-z].  Bytes from 0x80 on are ordinary bytes here (Go goes
    on to decode them as UTF-8 and consults the Unicode tables): for
    [TrimSpace], [EqualFold] and [ToLower] this module is the ASCII path of
    the package, exact on ASCII strings; what the program does with names
    beyond ASCII is stated over [GoStrings] and the module [Go] further
    down.  [Split], the prefix and suffix functions, [Replace] and [Count]
    work on bytes in Go as here. *)
Module strings.

(** [asciiSpace]: tab, line feed, vertical tab, form feed, carriage
    return and space. *)
Definition isSpace (c : ascii) : bool :=
  let n := N_of_ascii c in
  ((9 <=? n)%N && (n <=? 13)%N) || (n =? 32)%N.

(** The first loop of [TrimSpace]: advance [start] over white space. *)
Fixpoint trimLeft (s : string) : string :=
  match s with
  | EmptyString => EmptyString
  | String c r => if isSpace c then trimLeft r else s
  end.

(** The second loop of [TrimSpace]: move [stop] back over white space. *)
Fixpoint trimRight (s : string) : string :=
  match s with
  | EmptyString => EmptyString
  | String c r =>
      match trimRight r with
      | EmptyString => if isSpace c then EmptyString else String c EmptyString
      | r' => String c r'
      end
  end.

Definition TrimSpace (s : string) : string := trimRight (trimLeft s).

(** One step of the ASCII loop of [EqualFold]: equal bytes, or, once
    ordered [sr < tr], an upper-case [sr] with [tr = sr + 'a' - 'A']. *)
Definition foldByte (a b : ascii) : bool :=
  let x := N_of_ascii a in
  let y := N_of_ascii b in
  if (x =? y)%N then true
  else
    let sr := N.min x y in
    let tr := N.max x y in
    (65 <=? sr)%N && (sr <=? 90)%N && (tr =? sr + 32)%N.

Fixpoint EqualFold (s t : string) : bool :=
  match s, t with
  | EmptyString, EmptyString => true
  | String a s', String b t' => foldByte a b && EqualFold s' t'
  | _, _ => false
  end.

Definition lowerByte (c : ascii) : ascii :=
  let n := N_of_ascii c in
  if (65 <=? n)%N && (n <=? 90)%N then ascii_of_N (n + 32) else c.

Fixpoint ToLower (s : string) : string :=
  match s with
  | EmptyString => EmptyString
  | String c r => String (lowerByte c) (ToLower r)
  end.

(** [Split s sep] for a separator of one byte, which is how the program
    calls it ([sep] is the comma).  For such a separator Go returns the
    pieces between the occurrences of [sep]; the empty string has the
    one piece [""]. *)
Fixpoint Split (s : string) (sep : ascii) : list string :=
  match s with
  | EmptyString => [EmptyString]
  | String c r =>
      if Ascii.eqb c sep then EmptyString :: Split r sep
      else match Split r sep with
           | p :: ps => String c p :: ps
           | [] => [String c EmptyString]
           end
  end.


(** Every byte of [s] is white space. *)
Fixpoint allSpace (s : string) : bool :=
  match s with
  | EmptyString => true
  | String c r => isSpace c && allSpace r
  end.

(** The last byte of [s], if it has one. *)
Fixpoint lastByte (s : string) : option ascii :=
  match s with
  | EmptyString => None
  | String c EmptyString => Some c
  | String _ r => lastByte r
  end.

Fixpoint Contains (s : string) (c : ascii) : bool :=
  match s with
  | EmptyString => false
  | String a r => Ascii.eqb a c || Contains r c
  end.

(** [HasPrefix], [HasSuffix], [TrimPrefix] and [TrimSuffix] as the package
    writes them, on lengths and slices. *)
Definition HasPrefix (s prefix : string) : bool :=
  (String.length prefix <=? String.length s)%nat
  && (substring 0 (String.length prefix) s =? prefix)%string.

Definition HasSuffix (s suffix : string) : bool :=
  (String.length suffix <=? String.length s)%nat
  && (substring (String.length s - String.length suffix) (String.length suffix) s
      =? suffix)%string.

Definition TrimPrefix (s prefix : string) : string :=
  if HasPrefix s prefix
  then substring (String.length prefix) (String.length s - String.length prefix) s
  else s.

Definition TrimSuffix (s suffix : string) : string :=
  if HasSuffix s suffix
  then substring 0 (String.length s - String.length suffix) s
  else s.

Definition upperByte (c : ascii) : ascii :=
  let n := N_of_ascii c in
  if (97 <=? n)%N && (n <=? 122)%N then ascii_of_N (n - 32) else c.

Fixpoint ToUpper (s : string) : string :=
  match s with
  | EmptyString => EmptyString
  | String c r => String (upperByte c) (ToUpper r)
  end.

(** [strings.Contains s substr]. *)
Fixpoint ContainsSub (s substr : string) : bool :=
  HasPrefix s substr
  || match s with
     | EmptyString => false
     | String _ r => ContainsSub r substr
     end.

(** [strings.Replace s old new (-1)] for [old] and [new] of one byte. *)
Fixpoint Replace (s : string) (old new : ascii) : string :=
  match s with
  | EmptyString => EmptyString
  | String c r => String (if Ascii.eqb c old then new else c) (Replace r old new)
  end.

(** [strings.Count s sep] for a separator of one byte. *)
Fixpoint Count (s : string) (sep : ascii) : nat :=
  match s with
  | EmptyString => 0
  | String c r => (if Ascii.eqb c sep then 1 else 0) + Count r sep
  end.

End strings.

Definition comma : ascii := ascii_of_nat 44.
Definition allBytes : list ascii := List.map ascii_of_nat (seq 0 256).
Definition dquote : string := String (ascii_of_nat 34) EmptyString.

(* ===================================================================== *)
(** ** Data model *)
(* ===================================================================== *)

Definition error := string.

(** [m[k]] on a Go map: the zero value when the key is missing. *)
Definition index (m : gmap string string) (k : string) : string :=
  default "" (m !! k).

Record IngressConfig := { Annotations : gmap string string }.

Record Config := {
  Config_Groups : string;
  Ingresses : list IngressConfig
}.

Record App := {
  Title : string;
  Icon : string;
  URL : string;
  Groups : list string;
  Description : string
}.

(** The fields of [k8s.io/api/networking/v1] that the program reads. *)
Module v1.
Record IngressRule := { Host : string }.
Record IngressTLS := { Hosts : list string; SecretName : string }.
Record IngressSpec := { Rules : list IngressRule; TLS : list IngressTLS }.
Record Ingress := {
  Namespace : string;
  Annotations : gmap string string;
  Spec : IngressSpec
}.
End v1.

(** Process-wide configuration, set once by [main]. *)
Record Globals := {
  demoMode : bool;
  demoGroups : list string;
  debugMode : bool
}.

(* ===================================================================== *)
(** ** The group filter *)
(* ===================================================================== *)

(** [for _, userGroup := range userGroups]: [true] is the [goto next]
    taken after the append. *)
Fixpoint matchUserGroups (appGroup : string) (userGroups : list string) : bool :=
  match userGroups with
  | [] => false
  | userGroup :: rest =>
      if strings.EqualFold (strings.TrimSpace appGroup) (strings.TrimSpace userGroup)
      then true
      else matchUserGroups appGroup rest
  end.

(** [for _, appGroup := range app.Groups]. *)
Fixpoint matchAppGroups (appGroups userGroups : list string) : bool :=
  match appGroups with
  | [] => false
  | appGroup :: rest =>
      if matchUserGroups appGroup userGroups then true
      else matchAppGroups rest userGroups
  end.

(** [for _, app := range apps], with [filtered] threaded through. *)
Fixpoint filterLoop (apps : list App) (userGroups : list string)
    (filtered : list App) : list App :=
  match apps with
  | [] => filtered
  | app :: rest =>
      if (length (Groups app) =? 0)%nat then
        filterLoop rest userGroups (filtered ++ [app])
      else if matchAppGroups (Groups app) userGroups then
        filterLoop rest userGroups (filtered ++ [app])
      else
        filterLoop rest userGroups filtered
  end.

Definition filterAppsByGroups (apps : list App) (userGroups : list string) : list App :=
  if (length userGroups =? 0)%nat then apps
  else filterLoop apps userGroups [].

(** The filter passes [app] for a caller: run on [app] alone, it keeps it. *)
Definition passes (userGroups : list string) (app : App) : bool :=
  match filterAppsByGroups [app] userGroups with
  | [] => false
  | _ :: _ => true
  end.

(** The normal form under which the spec compares two group names. *)
Definition normalize (g : string) : string :=
  strings.ToLower (strings.TrimSpace g).

(** The filter of the earlier revision that [main.go] also holds (its
    first 180 lines): the same loops, the two trimmed names compared with
    [==].  The later revision above replaced that test by
    [strings.EqualFold]. *)
Module Earlier.

Fixpoint matchUserGroups (appGroup : string) (userGroups : list string) : bool :=
  match userGroups with
  | [] => false
  | userGroup :: rest =>
      if (strings.TrimSpace appGroup =? strings.TrimSpace userGroup)%string
      then true
      else matchUserGroups appGroup rest
  end.

Fixpoint matchAppGroups (appGroups userGroups : list string) : bool :=
  match appGroups with
  | [] => false
  | appGroup :: rest =>
      if matchUserGroups appGroup userGroups then true
      else matchAppGroups rest userGroups
  end.

Fixpoint filterLoop (apps : list App) (userGroups : list string)
    (filtered : list App) : list App :=
  match apps with
  | [] => filtered
  | app :: rest =>
      if (length (Groups app) =? 0)%nat then
        filterLoop rest userGroups (filtered ++ [app])
      else if matchAppGroups (Groups app) userGroups then
        filterLoop rest userGroups (filtered ++ [app])
      else
        filterLoop rest userGroups filtered
  end.

Definition filterAppsByGroups (apps : list App) (userGroups : list string) : list App :=
  if (length userGroups =? 0)%nat then apps
  else filterLoop apps userGroups [].

End Earlier.

(* ===================================================================== *)
(** ** URL derivation *)
(* ===================================================================== *)

Definition getIngressURL (ing : v1.Ingress) : string :=
  match v1.Rules (v1.Spec ing) with
  | rule :: _ =>
      let host := v1.Host rule in
      if (0 <? length (v1.TLS (v1.Spec ing)))%nat then "https://" +:+ host
      else "http://" +:+ host
  | [] => ""
  end.

(* ===================================================================== *)
(** ** The outside world and the calls made to it *)
(* ===================================================================== *)

(** What one run can observe of the file system, the YAML decoder and the
    cluster API.  [os_ReadFile] and [yaml_Unmarshal] answer as the Go
    functions do, with a value and an error side by side: the decoder may
    have filled part of the [Config] when it reports an error.  The cluster
    calls answer with an error or a handle. *)
Record Env := {
  os_ReadFile : string -> string * option error;
  yaml_Unmarshal : string -> Config * option error;
  RestConfig : Type;
  Clientset : Type;
  rest_InClusterConfig : error + RestConfig;
  kubernetes_NewForConfig : RestConfig -> error + Clientset;
  Ingresses_List : Clientset -> error + list v1.Ingress
}.

Inductive Event :=
  | EvReadFile (path : string)
  | EvUnmarshal (data : string)
  | EvInClusterConfig
  | EvNewForConfig
  | EvListIngresses.

(** A computation that appends the calls it makes to a trace. *)
Definition IO (A : Type) : Type := list Event -> A * list Event.

Definition io_ret {A} (a : A) : IO A := fun tr => (a, tr).

Definition io_bind {A B} (m : IO A) (k : A -> IO B) : IO B :=
  fun tr => let (a, tr') := m tr in k a tr'.

Definition emit (e : Event) : IO unit := fun tr => (tt, tr ++ [e]).

Definition run {A} (m : IO A) : A * list Event := m [].

Notation "'let*' x := m 'in' k" := (io_bind m (fun x => k))
  (at level 10, x name, m at level 100, k at level 200).
Notation "'let*' ( a , b ) := m 'in' k" :=
  (io_bind m (fun x => let (a, b) := x in k))
  (at level 10, a name, b name, m at level 100, k at level 200).

Section Adapters.

Variable env : Env.

Definition ReadFile (path : string) : IO (string * option error) :=
  let* _u := emit (EvReadFile path) in io_ret (os_ReadFile env path).

Definition Unmarshal (data : string) : IO (Config * option error) :=
  let* _u := emit (EvUnmarshal data) in io_ret (yaml_Unmarshal env data).

Definition InClusterConfig : IO (error + RestConfig env) :=
  let* _u := emit EvInClusterConfig in io_ret (rest_InClusterConfig env).

Definition NewForConfig (config : RestConfig env) : IO (error + Clientset env) :=
  let* _u := emit EvNewForConfig in io_ret (kubernetes_NewForConfig env config).

Definition ListIngresses (clientset : Clientset env) : IO (error + list v1.Ingress) :=
  let* _u := emit EvListIngresses in io_ret (Ingresses_List env clientset).

(** The loop of [getDemoApps] over [config.Ingresses]. *)
Fixpoint demoLoop (ings : list IngressConfig) (apps : list App) : list App :=
  match ings with
  | [] => apps
  | ing :: rest =>
      if negb (index (Annotations ing) "dashboard.home/enabled" =? "true") then
        demoLoop rest apps
      else
        let app := {| Title := index (Annotations ing) "dashboard.home/title";
                      Icon := index (Annotations ing) "dashboard.home/icon";
                      Description := index (Annotations ing) "dashboard.home/description";
                      URL := "https://example.com";
                      Groups := [] |} in
        let groups := index (Annotations ing) "dashboard.home/groups" in
        let app :=
          if negb (groups =? "") then
            {| Title := Title app; Icon := Icon app; URL := URL app;
               Groups := strings.Split groups comma;
               Description := Description app |}
          else app in
        demoLoop rest (apps ++ [app])
  end.

(** The loop of [getK8sApps] over [ingresses.Items]. *)
Fixpoint k8sLoop (items : list v1.Ingress) (apps : list App) : list App :=
  match items with
  | [] => apps
  | ing :: rest =>
      if negb (index (v1.Annotations ing) "dashboard.home/enabled" =? "true") then
        k8sLoop rest apps
      else
        let app := {| Title := index (v1.Annotations ing) "dashboard.home/title";
                      Icon := index (v1.Annotations ing) "dashboard.home/icon";
                      Description := index (v1.Annotations ing) "dashboard.home/description";
                      URL := getIngressURL ing;
                      Groups := [] |} in
        let groups := index (v1.Annotations ing) "dashboard.home/groups" in
        let app :=
          if negb (groups =? "") then
            {| Title := Title app; Icon := Icon app; URL := URL app;
               Groups := strings.Split groups comma;
               Description := Description app |}
          else app in
        k8sLoop rest (apps ++ [app])
  end.

(** [getDemoApps] from the [yaml.Unmarshal] on: what it does with the
    bytes of whichever file was read. *)
Definition demoAppsOf (data : string) : IO (list App * option error) :=
  let* (config, err) := Unmarshal data in
  match err with
  | Some e => io_ret ([], Some e)
  | None => io_ret (demoLoop (Ingresses config) [], None)
  end.

Definition getDemoApps : IO (list App * option error) :=
  let* (data, err) := ReadFile "/etc/dashboard/config.yaml" in
  match err with
  | Some _ =>
      let* (data, err) := ReadFile "config.yaml" in
      match err with
      | Some e => io_ret ([], Some e)
      | None => demoAppsOf data
      end
  | None => demoAppsOf data
  end.

Definition getK8sApps : IO (list App * option error) :=
  let* config := InClusterConfig in
  match config with
  | inl e => io_ret ([], Some e)
  | inr config =>
      let* clientset := NewForConfig config in
      match clientset with
      | inl e => io_ret ([], Some e)
      | inr clientset =>
          let* ingresses := ListIngresses clientset in
          match ingresses with
          | inl e => io_ret ([], Some e)
          | inr items => io_ret (k8sLoop items [], None)
          end
      end
  end.

(** [loadDemoGroups] from the [yaml.Unmarshal] on; [before] is the
    value of the global [demoGroups] when the function is entered, the
    result its value on return. *)
Definition demoGroupsOf (before : list string) (data : string) : IO (list string) :=
  let* (config, err) := Unmarshal data in
  match err with
  | Some _ => io_ret before
  | None =>
      if negb (Config_Groups config =? "") then
        io_ret (map strings.TrimSpace (strings.Split (Config_Groups config) comma))
      else io_ret before
  end.

Definition loadDemoGroups (before : list string) : IO (list string) :=
  let* (data, err) := ReadFile "/etc/dashboard/config.yaml" in
  match err with
  | Some _ =>
      let* (data, err) := ReadFile "config.yaml" in
      match err with
      | Some _ => io_ret before
      | None => demoGroupsOf before data
      end
  | None => demoGroupsOf before data
  end.

End Adapters.

(* ===================================================================== *)
(** ** The request handler *)
(* ===================================================================== *)

Module http.

Record Request := {
  Method : string;
  Header : gmap string string;
  RemoteAddr : string
}.

(** What has been written to the response: text, or what [json.Encoder]
    writes for the slice of applications with these elements.  A slice
    that reaches the encoder without elements is the nil slice, for which
    the encoder writes [null] and not an empty array. *)
Inductive Chunk :=
  | Text (s : string)
  | JSON (apps : list App).

Record ResponseWriter := {
  RespHeader : gmap string string;
  Status : option nat;
  Body : list Chunk
}.

Definition empty : ResponseWriter :=
  {| RespHeader := ∅; Status := None; Body := [] |}.

Definition Header_Set (k v : string) (w : ResponseWriter) : ResponseWriter :=
  {| RespHeader := <[k := v]> (RespHeader w); Status := Status w; Body := Body w |}.

Definition Header_Del (k : string) (w : ResponseWriter) : ResponseWriter :=
  {| RespHeader := delete k (RespHeader w); Status := Status w; Body := Body w |}.

(** The first [WriteHeader] decides the status. *)
Definition WriteHeader (code : nat) (w : ResponseWriter) : ResponseWriter :=
  {| RespHeader := RespHeader w;
     Status := match Status w with Some c => Some c | None => Some code end;
     Body := Body w |}.

(** A write sends status 200 first when none was sent. *)
Definition Write (c : Chunk) (w : ResponseWriter) : ResponseWriter :=
  let w := WriteHeader 200 w in
  {| RespHeader := RespHeader w; Status := Status w; Body := Body w ++ [c] |}.

Definition newline : string := String (ascii_of_nat 10) EmptyString.

(** [http.Error]. *)
Definition Error (w : ResponseWriter) (msg : string) (code : nat) : ResponseWriter :=
  let w := Header_Del "Content-Length" w in
  let w := Header_Set "Content-Type" "text/plain; charset=utf-8" w in
  let w := Header_Set "X-Content-Type-Options" "nosniff" w in
  let w := WriteHeader code w in
  Write (Text (msg +:+ newline)) w.

Definition StatusInternalServerError : nat := 500.
Definition StatusMethodNotAllowed : nat := 405.

End http.

Definition jsonError (msg : string) : string :=
  "{" +:+ dquote +:+ "error" +:+ dquote +:+ ":" +:+ dquote +:+ msg +:+ dquote +:+ "}".

Definition getUserGroups (g : Globals) (r : http.Request) : list string :=
  if demoMode g then demoGroups g
  else
    let groupsHeader := index (http.Header r) "X-Forwarded-Groups" in
    if groupsHeader =? "" then []
    else map strings.TrimSpace (strings.Split groupsHeader comma).

Definition handleApps (env : Env) (g : Globals)
    (w : http.ResponseWriter) (r : http.Request) : IO http.ResponseWriter :=
  if negb (http.Method r =? "GET") then
    let w := http.Header_Set "Content-Type" "application/json" w in
    io_ret (http.Error w (jsonError "method not allowed") http.StatusMethodNotAllowed)
  else
    let w := http.Header_Set "Content-Type" "application/json" w in
    let userGroups := getUserGroups g r in
    let* (apps, err) := (if demoMode g then getDemoApps env else getK8sApps env) in
    match err with
    | Some _ =>
        io_ret (http.Error w (jsonError "failed to fetch apps") http.StatusInternalServerError)
    | None =>
        let filtered := filterAppsByGroups apps userGroups in
        io_ret (http.Write (http.JSON filtered) w)
    end.

(* ===================================================================== *)
(** ** Static files and start-up *)
(* ===================================================================== *)

Definition getContentType (path : string) : string :=
  if strings.HasSuffix path ".html" then "text/html; charset=utf-8"
  else if strings.HasSuffix path ".js" then "application/javascript; charset=utf-8"
  else if strings.HasSuffix path ".css" then "text/css; charset=utf-8"
  else if strings.HasSuffix path ".json" then "application/json; charset=utf-8"
  else if strings.HasSuffix path ".png" then "image/png"
  else if strings.HasSuffix path ".jpg" || strings.HasSuffix path ".jpeg" then "image/jpeg"
  else if strings.HasSuffix path ".svg" then "image/svg+xml"
  else if strings.HasSuffix path ".ico" then "image/x-icon"
  else "application/octet-stream".

Definition StatusNotFound : nat := 404.

(** [serveStatic]: [staticFS] answers [fs.ReadFile] on the embedded file
    system, [urlPath] is [r.URL.Path], all that the function reads of the
    request. *)
Definition serveStatic (staticFS : string -> string * option error)
    (w : http.ResponseWriter) (urlPath : string) : http.ResponseWriter :=
  let path := strings.TrimPrefix urlPath "/" in
  let path := if path =? "" then "index.html" else path in
  let (content, err) := staticFS path in
  match err with
  | Some _ => http.Error w "404 - Page Not Found" StatusNotFound
  | None =>
      let contentType := getContentType path in
      let w := http.Header_Set "Content-Type" contentType w in
      http.Write (http.Text content) w
  end.

(** [main] up to the call of [http.ListenAndServe]: the globals it sets
    and the address it listens on.  [getenv] is [os.Getenv]; the global
    [demoGroups] starts as the nil slice. *)
Definition main (getenv : string -> string) (env : Env) : IO (Globals * string) :=
  let demo := (getenv "DEMO_MODE" =? "true") in
  let logLevel := strings.ToUpper (getenv "LOG_LEVEL") in
  let debug := (logLevel =? "DEBUG") in
  let* groups := (if demo then loadDemoGroups env [] else io_ret []) in
  let port := getenv "PORT" in
  let port := if port =? "" then "8080" else port in
  io_ret ({| demoMode := demo; demoGroups := groups; debugMode := debug |},
          ":" +:+ port).

(* ===================================================================== *)
(** ** The chart's name templates *)
(* ===================================================================== *)

(** The named templates of the chart's helper file, with the template
    functions they pipe through ([default], [trunc], [trimSuffix],
    [contains], [replace], [printf]) on strings; an unset value is the
    empty string. *)
Module helpers.

Record Context := {
  Chart_Name : string;
  Chart_Version : string;
  Release_Name : string;
  Values_nameOverride : string;
  Values_fullnameOverride : string;
  Values_serviceAccount_create : bool;
  Values_serviceAccount_name : string
}.

Definition default (d v : string) : string := if v =? "" then d else v.

Definition trunc (c : nat) (s : string) : string :=
  if (c <? String.length s)%nat then substring 0 c s else s.

Definition trimSuffix (suffix s : string) : string := strings.TrimSuffix s suffix.

Definition contains (substr s : string) : bool := strings.ContainsSub s substr.

Definition replace (old new : ascii) (s : string) : string := strings.Replace s old new.

Definition name (c : Context) : string :=
  trimSuffix "-" (trunc 63 (default (Chart_Name c) (Values_nameOverride c))).

Definition fullname (c : Context) : string :=
  if negb (Values_fullnameOverride c =? "") then
    trimSuffix "-" (trunc 63 (Values_fullnameOverride c))
  else
    let name := default (Chart_Name c) (Values_nameOverride c) in
    if contains name (Release_Name c) then
      trimSuffix "-" (trunc 63 (Release_Name c))
    else
      trimSuffix "-" (trunc 63 (Release_Name c +:+ "-" +:+ name)).

Definition chart (c : Context) : string :=
  trimSuffix "-"
    (trunc 63 (replace (ascii_of_nat 43) (ascii_of_nat 95)
                 (Chart_Name c +:+ "-" +:+ Chart_Version c))).

Definition serviceAccountName (c : Context) : string :=
  if Values_serviceAccount_create c then
    default (fullname c) (Values_serviceAccount_name c)
  else
    default "default" (Values_serviceAccount_name c).

End helpers.

(* ===================================================================== *)
(** ** The program over Go's own [TrimSpace] and [EqualFold] *)
(* ===================================================================== *)

(** Every byte of [s] is below 0x80. *)
Fixpoint isASCII (s : string) : bool :=
  match s with
  | EmptyString => true
  | String c r => (N_of_ascii c <? 128)%N && isASCII r
  end.

(** [strings.TrimSpace] and [strings.EqualFold] as the program is linked
    against them.  Beyond ASCII they decode UTF-8 and consult the Unicode
    tables (white space such as U+00A0, simple case folding such as the
    long s with [s], U+FFFD for every invalid byte); those tables are not
    part of the repository, so the two functions are parameters here.  What
    is known of them is what the package's source does before it meets a
    byte from 0x80 on: on ASCII strings they are [strings.TrimSpace] and
    [strings.EqualFold] of the module above, which is their ASCII path;
    and a string folds to itself. *)
Class GoStrings := {
  go_TrimSpace : string -> string;
  go_EqualFold : string -> string -> bool;
  go_TrimSpace_ascii :
    forall s, isASCII s = true -> go_TrimSpace s = strings.TrimSpace s;
  go_EqualFold_ascii :
    forall s t, isASCII s = true -> isASCII t = true ->
                go_EqualFold s t = strings.EqualFold s t;
  go_EqualFold_refl : forall s, go_EqualFold s s = true
}.

(** The functions of [main.go] that call the two, over any such package.
    Line for line they are the definitions above, which are these at the
    ASCII path. *)
Module Go.

Section WithStrings.

Context {P : GoStrings}.

Fixpoint matchUserGroups (appGroup : string) (userGroups : list string) : bool :=
  match userGroups with
  | [] => false
  | userGroup :: rest =>
      if go_EqualFold (go_TrimSpace appGroup) (go_TrimSpace userGroup)
      then true
      else matchUserGroups appGroup rest
  end.

Fixpoint matchAppGroups (appGroups userGroups : list string) : bool :=
  match appGroups with
  | [] => false
  | appGroup :: rest =>
      if matchUserGroups appGroup userGroups then true
      else matchAppGroups rest userGroups
  end.

Fixpoint filterLoop (apps : list App) (userGroups : list string)
    (filtered : list App) : list App :=
  match apps with
  | [] => filtered
  | app :: rest =>
      if (length (Groups app) =? 0)%nat then
        filterLoop rest userGroups (filtered ++ [app])
      else if matchAppGroups (Groups app) userGroups then
        filterLoop rest userGroups (filtered ++ [app])
      else
        filterLoop rest userGroups filtered
  end.

Definition filterAppsByGroups (apps : list App) (userGroups : list string) : list App :=
  if (length userGroups =? 0)%nat then apps
  else filterLoop apps userGroups [].

(** The filter passes [app] for a caller: run on [app] alone, it keeps it. *)
Definition passes (userGroups : list string) (app : App) : bool :=
  match filterAppsByGroups [app] userGroups with
  | [] => false
  | _ :: _ => true
  end.

Definition getUserGroups (g : Globals) (r : http.Request) : list string :=
  if demoMode g then demoGroups g
  else
    let groupsHeader := index (http.Header r) "X-Forwarded-Groups" in
    if groupsHeader =? "" then []
    else List.map go_TrimSpace (strings.Split groupsHeader comma).

Definition handleApps (env : Env) (g : Globals)
    (w : http.ResponseWriter) (r : http.Request) : IO http.ResponseWriter :=
  if negb (http.Method r =? "GET") then
    let w := http.Header_Set "Content-Type" "application/json" w in
    io_ret (http.Error w (jsonError "method not allowed") http.StatusMethodNotAllowed)
  else
    let w := http.Header_Set "Content-Type" "application/json" w in
    let userGroups := getUserGroups g r in
    let* (apps, err) := (if demoMode g then getDemoApps env else getK8sApps env) in
    match err with
    | Some _ =>
        io_ret (http.Error w (jsonError "failed to fetch apps") http.StatusInternalServerError)
    | None =>
        let filtered := filterAppsByGroups apps userGroups in
        io_ret (http.Write (http.JSON filtered) w)
    end.

(** The loops of the earlier revision, which compares with [==]. *)
Fixpoint earlier_matchUserGroups (appGroup : string) (userGroups : list string) : bool :=
  match userGroups with
  | [] => false
  | userGroup :: rest =>
      if (go_TrimSpace appGroup =? go_TrimSpace userGroup)%string
      then true
      else earlier_matchUserGroups appGroup rest
  end.

Fixpoint earlier_matchAppGroups (appGroups userGroups : list string) : bool :=
  match appGroups with
  | [] => false
  | appGroup :: rest =>
      if earlier_matchUserGroups appGroup userGroups then true
      else earlier_matchAppGroups rest userGroups
  end.

Fixpoint earlier_filterLoop (apps : list App) (userGroups : list string)
    (filtered : list App) : list App :=
  match apps with
  | [] => filtered
  | app :: rest =>
      if (length (Groups app) =? 0)%nat then
        earlier_filterLoop rest userGroups (filtered ++ [app])
      else if earlier_matchAppGroups (Groups app) userGroups then
        earlier_filterLoop rest userGroups (filtered ++ [app])
      else
        earlier_filterLoop rest userGroups filtered
  end.

Definition earlier_filterAppsByGroups (apps : list App) (userGroups : list string)
    : list App :=
  if (length userGroups =? 0)%nat then apps
  else earlier_filterLoop apps userGroups [].

End WithStrings.

End Go.

(** [t] is [s] without the white space around it: [s] is [t] between two
    runs of white space, and [t] neither starts nor ends with white
    space. *)
Definition TrimOf (s t : string) : Prop :=
  (exists l r, s = l +:+ t +:+ r
               /\ strings.allSpace l = true /\ strings.allSpace r = true)
  /\ (forall c rest, t = String c rest -> strings.isSpace c = false)
  /\ (forall c, strings.lastByte t = Some c -> strings.isSpace c = false).

(** Two ASCII group names are the same group: without the white space
    around them they are equal up to the case of their letters. *)
Definition sameGroup (ag ug : string) : Prop :=
  exists a u, TrimOf ag a /\ TrimOf ug u /\ strings.ToLower a = strings.ToLower u.

(** Every name of the list is ASCII. *)
Definition asciiNames (names : list string) : bool := forallb isASCII names.

(** The calls the program itself makes to [os.ReadFile] and
    [yaml.Unmarshal] for its configuration file. *)
Definition isConfigCall (e : Event) : bool :=
  match e with
  | EvReadFile _ | EvUnmarshal _ => true
  | _ => false
  end.

(** The calls into client-go: [rest.InClusterConfig],
    [kubernetes.NewForConfig] and the listing.  What those functions do
    inside, the files of the service account that [rest.InClusterConfig]
    reads among it, is not part of the trace. *)
Definition isClientCall (e : Event) : bool :=
  match e with
  | EvInClusterConfig | EvNewForConfig | EvListIngresses => true
  | _ => false
  end.

(* ===================================================================== *)
(** ** Notions used to state further properties *)
(* ===================================================================== *)

(** The test both adapter loops make on a bag. *)
Definition isEnabled (bag : gmap string string) : bool :=
  index bag "dashboard.home/enabled" =? "true".

(** [app] with another URL. *)
Definition withURL (url : string) (app : App) : App :=
  {| Title := Title app; Icon := Icon app; URL := url;
     Groups := Groups app; Description := Description app |}.

(** [app] with other groups. *)
Definition withGroups (groups : list string) (app : App) : App :=
  {| Title := Title app; Icon := Icon app; URL := URL app;
     Groups := groups; Description := Description app |}.

(** The record of the static file that carries the annotations of a
    cluster record. *)
Definition configOf (ing : v1.Ingress) : IngressConfig :=
  {| Annotations := v1.Annotations ing |}.

(* ===================================================================== *)
(** ** The URL rule as the specification words it *)
(* ===================================================================== *)

(** Modelled from the spec's words (URL derivation, 4.1): TLS is
    configured for a rule when an entry of the record's TLS list covers the
    rule's host, by naming it or by naming no host at all. *)
Definition tlsConfiguredFor (ing : v1.Ingress) (rule : v1.IngressRule) : bool :=
  existsb
    (fun tls =>
       match v1.Hosts tls with
       | [] => true
       | hosts => existsb (String.eqb (v1.Host rule)) hosts
       end)
    (v1.TLS (v1.Spec ing)).

(** Modelled from the spec's words: the host of the first rule, prefixed
    by the scheme that the TLS configuration of that rule calls for; the
    empty string without rules. *)
Definition specIngressURL (ing : v1.Ingress) : string :=
  match v1.Rules (v1.Spec ing) with
  | rule :: _ =>
      (if tlsConfiguredFor ing rule then "https://" else "http://") +:+ v1.Host rule
  | [] => ""
  end.

(* ===================================================================== *)
(** ** Sample records *)
(* ===================================================================== *)


(** An enabled bag whose groups annotation is [g]. *)
Definition bagWithGroups (g : string) : gmap string string :=
  <["dashboard.home/enabled" := "true"]> (<["dashboard.home/groups" := g]> ∅).

(** A bag with a flag that is not the literal. *)
Definition yesBag : gmap string string :=
  <["dashboard.home/enabled" := "yes"]> (<["dashboard.home/title" := "Wiki"]> ∅).

(** A record with one rule and the TLS entries [tls]. *)
Definition ingressOf (bag : gmap string string) (hosts : list string)
    (tls : list v1.IngressTLS) : v1.Ingress :=
  {| v1.Namespace := "default";
     v1.Annotations := bag;
     v1.Spec := {| v1.Rules := List.map (fun h => {| v1.Host := h |}) hosts;
                   v1.TLS := tls |} |}.

(** A world for examples: the files of [files] exist, every other path
    is missing; the decoder knows the documents of [documents] and rejects
    every other after decoding a first record; the cluster answers
    [cluster] to the listing. *)
Definition sampleEnv (files : gmap string string) (documents : gmap string Config)
    (cluster : error + list v1.Ingress) : Env :=
  {| os_ReadFile := fun path =>
       match files !! path with
       | Some data => (data, None)
       | None => ("", Some ("open " +:+ path +:+ ": no such file or directory"))
       end;
     yaml_Unmarshal := fun data =>
       match documents !! data with
       | Some config => (config, None)
       | None => ({| Config_Groups := "";
                     Ingresses := [{| Annotations := bagWithGroups "dev" |}] |},
                  Some "yaml: unmarshal errors")
       end;
     RestConfig := unit;
     Clientset := unit;
     rest_InClusterConfig := inr tt;
     kubernetes_NewForConfig := fun _ => inr tt;
     Ingresses_List := fun _ => cluster |}.

(** The static file of the spec's scenario: one enabled entry for the
    group [dev], one entry that is not enabled. *)
Definition twoEntries : Config :=
  {| Config_Groups := "dev";
     Ingresses := [ {| Annotations :=
                         <["dashboard.home/title" := "Grafana"]> (bagWithGroups "dev") |};
                    {| Annotations := yesBag |} ] |}.

Definition getRequest : http.Request :=
  {| http.Method := "GET"; http.Header := ∅; http.RemoteAddr := "10.0.0.7:51000" |}.

(** The groups that the loops give an application, read off the bag. *)
Definition groupsOf (bag : gmap string string) : list string :=
  if negb (index bag "dashboard.home/groups" =? "")
  then strings.Split (index bag "dashboard.home/groups") comma
  else [].

(* ===================================================================== *)
(** ** Facts about the [strings] model *)
(* ===================================================================== *)

Section StringFacts.

Import strings.

Lemma allBytes_complete (c : ascii) : In c allBytes.
Proof.
  unfold allBytes. rewrite <- (ascii_nat_embedding c).
  apply in_map, in_seq. pose proof (nat_ascii_bounded c). lia.
Qed.

Lemma forallb_allBytes (P : ascii -> bool) :
  forallb P allBytes = true -> forall c, P c = true.
Proof.
  intros H c. rewrite forallb_forall in H. apply H, allBytes_complete.
Qed.

(** Folding two bytes together is comparing their lower-case forms. *)
Lemma foldByte_lowerByte (a b : ascii) :
  foldByte a b = Ascii.eqb (lowerByte a) (lowerByte b).
Proof.
  revert b. pattern a. revert a.
  assert (H : forall a, forallb (fun b => Bool.eqb (foldByte a b)
               (Ascii.eqb (lowerByte a) (lowerByte b))) allBytes = true).
  { apply (forallb_allBytes (fun a => forallb (fun b => Bool.eqb (foldByte a b)
               (Ascii.eqb (lowerByte a) (lowerByte b))) allBytes)).
    vm_compute. reflexivity. }
  intros a b. apply eqb_prop.
  apply (forallb_allBytes _ (H a) b).
Qed.

Lemma EqualFold_ToLower (s t : string) :
  EqualFold s t = true <-> ToLower s = ToLower t.
Proof.
  revert t. induction s as [|a s IH]; intros [|b t]; simpl; try easy.
  rewrite andb_true_iff, foldByte_lowerByte, Ascii.eqb_eq, IH.
  split; [intros [-> ->]; reflexivity | intros H; inversion H; auto].
Qed.

Lemma EqualFold_refl (s : string) : EqualFold s s = true.
Proof. apply EqualFold_ToLower. reflexivity. Qed.

(** White space at either end is gone after [TrimSpace]. *)
Lemma trimLeft_head (s : string) (c : ascii) (r : string) :
  trimLeft s = String c r -> isSpace c = false.
Proof.
  induction s as [|a s IH]; simpl; [discriminate|].
  destruct (isSpace a) eqn:E; [exact IH|].
  intros H. inversion H; subst. exact E.
Qed.

Lemma trimRight_head (s : string) (c : ascii) :
  isSpace c = false -> exists r', trimRight (String c s) = String c r'.
Proof.
  intros Hc. simpl. destruct (trimRight s); rewrite ?Hc; eauto.
Qed.

Lemma trimRight_idem (s : string) : trimRight (trimRight s) = trimRight s.
Proof.
  induction s as [|a s IH]; simpl; [reflexivity|].
  destruct (trimRight s) as [|b r] eqn:E.
  - destruct (isSpace a) eqn:Ea; simpl; rewrite ?Ea; reflexivity.
  - simpl in *. rewrite IH. reflexivity.
Qed.

Lemma TrimSpace_idem (s : string) : TrimSpace (TrimSpace s) = TrimSpace s.
Proof.
  unfold TrimSpace. destruct (trimLeft s) as [|c r] eqn:E; [reflexivity|].
  pose proof (trimLeft_head _ _ _ E) as Hc.
  destruct (trimRight_head r c Hc) as [r' Hr]. rewrite Hr.
  simpl trimLeft. rewrite Hc, <- Hr. apply trimRight_idem.
Qed.

(** [TrimSpace] takes white space off both ends and nothing else: the
    argument is the result between two runs of white space, and the result
    neither starts nor ends with white space. *)
Lemma trimLeft_decompose (s : string) :
  exists l, s = l +:+ trimLeft s /\ allSpace l = true.
Proof.
  induction s as [|a s (l & Hl & Hs)]; simpl.
  - exists EmptyString. auto.
  - destruct (isSpace a) eqn:E.
    + exists (String a l). split.
      * change (String a s = String a (l +:+ trimLeft s)). rewrite <- Hl. reflexivity.
      * simpl. rewrite E, Hs. reflexivity.
    + exists EmptyString. auto.
Qed.

Lemma trimRight_decompose (s : string) :
  exists r, s = trimRight s +:+ r /\ allSpace r = true.
Proof.
  induction s as [|a s (r & Hr & Hs)]; simpl.
  - exists EmptyString. auto.
  - destruct (trimRight s) as [|b t] eqn:E.
    + change (EmptyString +:+ r) with r in Hr. subst r.
      destruct (isSpace a) eqn:Ea.
      * exists (String a s). split; [reflexivity|]. simpl. rewrite Ea, Hs. reflexivity.
      * exists s. split; [reflexivity | exact Hs].
    + exists r. split; [|exact Hs].
      change (String a s = String a (String b t +:+ r)). rewrite <- Hr. reflexivity.
Qed.

Lemma trimRight_last (s : string) (c : ascii) :
  lastByte (trimRight s) = Some c -> isSpace c = false.
Proof.
  induction s as [|a s IH]; simpl; [discriminate|].
  destruct (trimRight s) as [|b t] eqn:E.
  - destruct (isSpace a) eqn:Ea; simpl; [discriminate|]. intros [= <-]. exact Ea.
  - exact IH.
Qed.

Lemma TrimSpace_decompose (s : string) :
  exists l r, s = l +:+ TrimSpace s +:+ r /\ allSpace l = true /\ allSpace r = true.
Proof.
  destruct (trimLeft_decompose s) as (l & Hl & Hls).
  destruct (trimRight_decompose (trimLeft s)) as (r & Hr & Hrs).
  exists l, r. unfold TrimSpace. rewrite <- Hr. auto.
Qed.

Lemma TrimSpace_ends (s : string) :
  (forall c t, TrimSpace s = String c t -> isSpace c = false)
  /\ (forall c, lastByte (TrimSpace s) = Some c -> isSpace c = false).
Proof.
  split; [|intros c; apply trimRight_last].
  intros c t H. unfold TrimSpace in H.
  destruct (trimLeft s) as [|a u] eqn:E; [discriminate|].
  pose proof (trimLeft_head _ _ _ E) as Ha.
  destruct (trimRight_head u a Ha) as [r' Hr]. rewrite Hr in H.
  injection H as <- _. exact Ha.
Qed.

(** [Split] never returns the empty list, cuts exactly at the
    separators, and changes no byte of any piece. *)
Lemma Split_nonempty (s : string) (c : ascii) : Split s c <> [].
Proof.
  destruct s as [|a s]; simpl; [discriminate|].
  destruct (Ascii.eqb a c); [discriminate|].
  destruct (Split s c); discriminate.
Qed.



End StringFacts.

(* ===================================================================== *)
(** ** The group filter: what the loops compute *)
(* ===================================================================== *)

Section FilterFacts.

Implicit Types (app : App) (apps filtered : list App).
Implicit Types (userGroups appGroups : list string).

Lemma matchUserGroups_iff (appGroup : string) userGroups :
  matchUserGroups appGroup userGroups = true <->
  exists ug, In ug userGroups /\ normalize appGroup = normalize ug.
Proof.
  unfold normalize. induction userGroups as [|u rest IH]; simpl.
  - split; [discriminate | intros (? & [] & _)].
  - destruct (strings.EqualFold _ _) eqn:E.
    + apply EqualFold_ToLower in E. split; [eauto|reflexivity].
    + rewrite IH. split.
      * intros (ug & Hin & Heq). eauto.
      * intros (ug & [<- | Hin] & Heq); [|eauto].
        apply EqualFold_ToLower in Heq. congruence.
Qed.

Lemma matchAppGroups_iff appGroups userGroups :
  matchAppGroups appGroups userGroups = true <->
  exists ag ug, In ag appGroups /\ In ug userGroups /\ normalize ag = normalize ug.
Proof.
  induction appGroups as [|a rest IH]; simpl.
  - split; [discriminate | intros (? & ? & [] & _)].
  - destruct (matchUserGroups a userGroups) eqn:E.
    + apply matchUserGroups_iff in E as (ug & Hin & Heq).
      split; [intros _; exists a, ug; auto | reflexivity].
    + rewrite IH. split.
      * intros (ag & ug & Hag & Hug & Heq). exists ag, ug. auto.
      * intros (ag & ug & [<- | Hag] & Hug & Heq); [|eauto].
        assert (matchUserGroups a userGroups = true) by (apply matchUserGroups_iff; eauto).
        congruence.
Qed.

(** The accumulator only ever grows at its end. *)
Lemma filterLoop_acc apps userGroups filtered :
  filterLoop apps userGroups filtered = filtered ++ filterLoop apps userGroups [].
Proof.
  revert filtered. induction apps as [|app rest IH]; intros filtered; simpl.
  - rewrite app_nil_r. reflexivity.
  - destruct (length (Groups app) =? 0)%nat; [|destruct (matchAppGroups _ _)].
    + rewrite (IH (filtered ++ [app])), (IH [app]), <- app_assoc. reflexivity.
    + rewrite (IH (filtered ++ [app])), (IH [app]), <- app_assoc. reflexivity.
    + apply IH.
Qed.

Lemma passes_unfold userGroups app :
  passes userGroups app =
  (length userGroups =? 0)%nat || (length (Groups app) =? 0)%nat
  || matchAppGroups (Groups app) userGroups.
Proof.
  unfold passes, filterAppsByGroups. destruct (length userGroups =? 0)%nat; [reflexivity|].
  simpl. destruct (length (Groups app) =? 0)%nat; [reflexivity|].
  destruct (matchAppGroups _ _); reflexivity.
Qed.

(** The filter decides each application on its own and keeps the order. *)
Lemma filterAppsByGroups_filter apps userGroups :
  filterAppsByGroups apps userGroups = List.filter (passes userGroups) apps.
Proof.
  unfold filterAppsByGroups. destruct (length userGroups =? 0)%nat eqn:E.
  - induction apps as [|app rest IH]; simpl; [reflexivity|].
    rewrite passes_unfold, E. simpl. congruence.
  - induction apps as [|app rest IH]; simpl; [reflexivity|].
    rewrite passes_unfold, E. simpl.
    destruct (length (Groups app) =? 0)%nat; simpl;
      [|destruct (matchAppGroups _ _); simpl];
      rewrite ?(filterLoop_acc rest userGroups [app]); simpl; rewrite IH; reflexivity.
Qed.

Lemma filterAppsByGroups_In apps userGroups app :
  In app (filterAppsByGroups apps userGroups) <->
  In app apps /\ passes userGroups app = true.
Proof. rewrite filterAppsByGroups_filter. apply filter_In. Qed.

Lemma filter_sublist {A} (f : A -> bool) (l : list A) :
  List.filter f l `sublist_of` l.
Proof.
  induction l as [|x l IH]; simpl; [constructor|].
  destruct (f x); [apply sublist_skip | apply sublist_cons]; exact IH.
Qed.

End FilterFacts.

(** The earlier revision is the stricter of the two: what it let
    through, the later revision lets through as well, and [Admins] against
    [admins] is where they part. *)
Section EarlierRevision.

Lemma earlier_matchUserGroups (appGroup : string) (userGroups : list string) :
  Earlier.matchUserGroups appGroup userGroups = true ->
  matchUserGroups appGroup userGroups = true.
Proof.
  induction userGroups as [|u rest IH]; simpl; [discriminate|].
  destruct (String.eqb_spec (strings.TrimSpace appGroup) (strings.TrimSpace u)) as [-> | _].
  - rewrite EqualFold_refl. reflexivity.
  - intros H. rewrite (IH H). destruct (strings.EqualFold _ _); reflexivity.
Qed.

Lemma earlier_matchAppGroups (appGroups userGroups : list string) :
  Earlier.matchAppGroups appGroups userGroups = true ->
  matchAppGroups appGroups userGroups = true.
Proof.
  induction appGroups as [|a rest IH]; simpl; [discriminate|].
  destruct (Earlier.matchUserGroups a userGroups) eqn:E.
  - rewrite (earlier_matchUserGroups _ _ E). reflexivity.
  - intros H. rewrite (IH H). destruct (matchUserGroups a userGroups); reflexivity.
Qed.

Lemma earlier_filterLoop_acc (apps : list App) (userGroups : list string)
    (filtered : list App) :
  Earlier.filterLoop apps userGroups filtered =
  filtered ++ Earlier.filterLoop apps userGroups [].
Proof.
  revert filtered. induction apps as [|app rest IH]; intros filtered; simpl.
  - rewrite app_nil_r. reflexivity.
  - destruct (length (Groups app) =? 0)%nat; [|destruct (Earlier.matchAppGroups _ _)].
    + rewrite (IH (filtered ++ [app])), (IH [app]), <- app_assoc. reflexivity.
    + rewrite (IH (filtered ++ [app])), (IH [app]), <- app_assoc. reflexivity.
    + apply IH.
Qed.

Lemma earlier_filter_sublist (apps : list App) (userGroups : list string) :
  Earlier.filterAppsByGroups apps userGroups `sublist_of` filterAppsByGroups apps userGroups.
Proof.
  unfold Earlier.filterAppsByGroups, filterAppsByGroups.
  destruct (length userGroups =? 0)%nat; [reflexivity|].
  induction apps as [|app rest IH]; simpl; [constructor|].
  destruct (length (Groups app) =? 0)%nat.
  - rewrite earlier_filterLoop_acc, (filterLoop_acc rest userGroups [app]).
    simpl. apply sublist_skip, IH.
  - destruct (Earlier.matchAppGroups (Groups app) userGroups) eqn:E.
    + rewrite (earlier_matchAppGroups _ _ E).
      rewrite earlier_filterLoop_acc, (filterLoop_acc rest userGroups [app]).
      simpl. apply sublist_skip, IH.
    + destruct (matchAppGroups (Groups app) userGroups); [|exact IH].
      rewrite (filterLoop_acc rest userGroups [app]). simpl. apply sublist_cons, IH.
Qed.

Example earlier_filter_case_sensitive :
  Earlier.filterAppsByGroups
    [{| Title := "Grafana"; Icon := ""; URL := ""; Groups := ["Admins "];
        Description := "" |}] ["admins"] = []
  /\ Earlier.filterAppsByGroups
       [{| Title := "Grafana"; Icon := ""; URL := ""; Groups := ["admins "];
           Description := "" |}] [" admins"]
     = [{| Title := "Grafana"; Icon := ""; URL := ""; Groups := ["admins "];
           Description := "" |}].
Proof. split; reflexivity. Qed.

End EarlierRevision.

(* ===================================================================== *)
(** ** Trimming pinned down, and the filter over Go's own functions *)
(* ===================================================================== *)

Section TrimFacts.

Import strings.

Lemma trimLeft_allSpace (r : string) : allSpace r = true -> trimLeft r = EmptyString.
Proof.
  induction r as [|c r IH]; simpl; [reflexivity|].
  intros H. apply andb_true_iff in H as [Hc Hr]. rewrite Hc. exact (IH Hr).
Qed.

Lemma trimLeft_app_space (l x : string) :
  allSpace l = true -> trimLeft (l +:+ x) = trimLeft x.
Proof.
  induction l as [|c l IH]; [reflexivity|].
  simpl. intros H. apply andb_true_iff in H as [Hc Hl].
  change (String c l +:+ x) with (String c (l +:+ x)). simpl. rewrite Hc. exact (IH Hl).
Qed.

Lemma trimRight_allSpace (r : string) : allSpace r = true -> trimRight r = EmptyString.
Proof.
  induction r as [|c r IH]; simpl; [reflexivity|].
  intros H. apply andb_true_iff in H as [Hc Hr]. rewrite (IH Hr), Hc. reflexivity.
Qed.

Lemma trimRight_app_space (t r : string) :
  allSpace r = true -> trimRight (t +:+ r) = trimRight t.
Proof.
  intros Hr. induction t as [|c t IH].
  - change (EmptyString +:+ r) with r. simpl. apply trimRight_allSpace, Hr.
  - change (String c t +:+ r) with (String c (t +:+ r)). simpl. rewrite IH. reflexivity.
Qed.

Lemma trimRight_fix (t : string) :
  (forall c, lastByte t = Some c -> isSpace c = false) -> trimRight t = t.
Proof.
  induction t as [|c t IH]; [reflexivity|].
  intros H. destruct t as [|d t].
  - simpl. rewrite (H c eq_refl). reflexivity.
  - change (trimRight (String c (String d t)))
      with (match trimRight (String d t) with
            | EmptyString => if isSpace c then EmptyString else String c EmptyString
            | String x y => String c (String x y)
            end).
    rewrite IH; [reflexivity|]. intros x Hx. apply H. exact Hx.
Qed.

Lemma TrimOf_TrimSpace (s : string) : TrimOf s (TrimSpace s).
Proof.
  split; [apply TrimSpace_decompose | apply TrimSpace_ends].
Qed.

(** The trimmed form is the only string that is [s] without the white
    space around it. *)
Lemma TrimOf_unique (s t : string) : TrimOf s t -> t = TrimSpace s.
Proof.
  intros ((l & r & -> & Hl & Hr) & Hfirst & Hlast).
  unfold TrimSpace. rewrite (trimLeft_app_space _ _ Hl).
  destruct t as [|c t'].
  - change (EmptyString +:+ r) with r. rewrite (trimLeft_allSpace _ Hr). reflexivity.
  - change (String c t' +:+ r) with (String c (t' +:+ r)). simpl trimLeft.
    rewrite (Hfirst c t' eq_refl).
    change (String c (t' +:+ r)) with (String c t' +:+ r).
    rewrite (trimRight_app_space _ _ Hr). symmetry. apply trimRight_fix, Hlast.
Qed.

Lemma sameGroup_normalize (ag ug : string) :
  sameGroup ag ug <-> normalize ag = normalize ug.
Proof.
  unfold sameGroup, normalize. split.
  - intros (a & u & Ha & Hu & H).
    rewrite <- (TrimOf_unique _ _ Ha), <- (TrimOf_unique _ _ Hu). exact H.
  - intros H. exists (TrimSpace ag), (TrimSpace ug).
    split; [apply TrimOf_TrimSpace|]. split; [apply TrimOf_TrimSpace | exact H].
Qed.

Lemma isASCII_trimLeft (s : string) : isASCII s = true -> isASCII (trimLeft s) = true.
Proof.
  induction s as [|c s IH]; simpl; [reflexivity|].
  intros H. destruct (isSpace c); [|exact H].
  apply andb_true_iff in H as [_ H]. exact (IH H).
Qed.

Lemma isASCII_trimRight (s : string) : isASCII s = true -> isASCII (trimRight s) = true.
Proof.
  induction s as [|c s IH]; simpl; [reflexivity|].
  intros H. apply andb_true_iff in H as [Hc Hs]. specialize (IH Hs).
  destruct (trimRight s) as [|d t].
  - destruct (isSpace c); simpl; [reflexivity | rewrite Hc; reflexivity].
  - simpl in *. rewrite Hc. exact IH.
Qed.

Lemma isASCII_TrimSpace (s : string) : isASCII s = true -> isASCII (TrimSpace s) = true.
Proof. intros H. apply isASCII_trimRight, isASCII_trimLeft, H. Qed.

Lemma isASCII_Split (s : string) (c : ascii) :
  isASCII s = true -> asciiNames (Split s c) = true.
Proof.
  unfold asciiNames. induction s as [|x s IH]; simpl; [reflexivity|].
  intros H. apply andb_true_iff in H as [Hx Hs]. specialize (IH Hs).
  destruct (Ascii.eqb x c); [exact IH|].
  destruct (Split s c) as [|p ps]; simpl in *; [rewrite Hx; reflexivity|].
  apply andb_true_iff in IH as [Hp Hps]. rewrite Hx, Hp, Hps. reflexivity.
Qed.

End TrimFacts.

(** The ASCII path alone is such a package (with every byte from 0x80 on
    an ordinary byte): what is asked of [GoStrings] can be met. *)
Definition asciiStrings : GoStrings :=
  {| go_TrimSpace := strings.TrimSpace;
     go_EqualFold := strings.EqualFold;
     go_TrimSpace_ascii := fun s _ => eq_refl;
     go_EqualFold_ascii := fun s t _ _ => eq_refl;
     go_EqualFold_refl := EqualFold_refl |}.

Section GoFilterFacts.

Context {P : GoStrings}.

Implicit Types (app : App) (apps filtered : list App).
Implicit Types (userGroups appGroups : list string).

Lemma go_matchUserGroups_iff (appGroup : string) userGroups :
  Go.matchUserGroups appGroup userGroups = true <->
  exists ug, In ug userGroups
             /\ go_EqualFold (go_TrimSpace appGroup) (go_TrimSpace ug) = true.
Proof.
  induction userGroups as [|u rest IH]; simpl.
  - split; [discriminate | intros (? & [] & _)].
  - destruct (go_EqualFold _ _) eqn:E.
    + split; [eauto | reflexivity].
    + rewrite IH. split.
      * intros (ug & Hin & Heq). eauto.
      * intros (ug & [<- | Hin] & Heq); [congruence | eauto].
Qed.

Lemma go_matchAppGroups_iff appGroups userGroups :
  Go.matchAppGroups appGroups userGroups = true <->
  exists ag ug, In ag appGroups /\ In ug userGroups
                /\ go_EqualFold (go_TrimSpace ag) (go_TrimSpace ug) = true.
Proof.
  induction appGroups as [|a rest IH]; simpl.
  - split; [discriminate | intros (? & ? & [] & _)].
  - destruct (Go.matchUserGroups a userGroups) eqn:E.
    + apply go_matchUserGroups_iff in E as (ug & Hin & Heq).
      split; [intros _; exists a, ug; auto | reflexivity].
    + rewrite IH. split.
      * intros (ag & ug & Hag & Hug & Heq). exists ag, ug. auto.
      * intros (ag & ug & [<- | Hag] & Hug & Heq); [|eauto].
        assert (Go.matchUserGroups a userGroups = true)
          by (apply go_matchUserGroups_iff; eauto).
        congruence.
Qed.

Lemma go_filterLoop_acc apps userGroups filtered :
  Go.filterLoop apps userGroups filtered = filtered ++ Go.filterLoop apps userGroups [].
Proof.
  revert filtered. induction apps as [|app rest IH]; intros filtered; simpl.
  - rewrite app_nil_r. reflexivity.
  - destruct (length (Groups app) =? 0)%nat; [|destruct (Go.matchAppGroups _ _)].
    + rewrite (IH (filtered ++ [app])), (IH [app]), <- app_assoc. reflexivity.
    + rewrite (IH (filtered ++ [app])), (IH [app]), <- app_assoc. reflexivity.
    + apply IH.
Qed.

Lemma go_passes_unfold userGroups app :
  Go.passes userGroups app =
  (length userGroups =? 0)%nat || (length (Groups app) =? 0)%nat
  || Go.matchAppGroups (Groups app) userGroups.
Proof.
  unfold Go.passes, Go.filterAppsByGroups.
  destruct (length userGroups =? 0)%nat; [reflexivity|].
  simpl. destruct (length (Groups app) =? 0)%nat; [reflexivity|].
  destruct (Go.matchAppGroups _ _); reflexivity.
Qed.

Lemma go_filter apps userGroups :
  Go.filterAppsByGroups apps userGroups = List.filter (Go.passes userGroups) apps.
Proof.
  unfold Go.filterAppsByGroups. destruct (length userGroups =? 0)%nat eqn:E.
  - induction apps as [|app rest IH]; simpl; [reflexivity|].
    rewrite go_passes_unfold, E. simpl. congruence.
  - induction apps as [|app rest IH]; simpl; [reflexivity|].
    rewrite go_passes_unfold, E. simpl.
    destruct (length (Groups app) =? 0)%nat; simpl;
      [|destruct (Go.matchAppGroups _ _); simpl];
      rewrite ?(go_filterLoop_acc rest userGroups [app]); simpl; rewrite IH; reflexivity.
Qed.

Lemma go_filter_In apps userGroups app :
  In app (Go.filterAppsByGroups apps userGroups) <->
  In app apps /\ Go.passes userGroups app = true.
Proof. rewrite go_filter. apply filter_In. Qed.

(** With groups on both sides, passing is finding a matching pair. *)
Lemma go_passes_iff userGroups app :
  Groups app <> [] -> userGroups <> [] ->
  (Go.passes userGroups app = true <->
   exists ag ug, In ag (Groups app) /\ In ug userGroups
                 /\ go_EqualFold (go_TrimSpace ag) (go_TrimSpace ug) = true).
Proof.
  intros Happ Hug. rewrite go_passes_unfold.
  destruct userGroups as [|u us]; [congruence|].
  destruct (Groups app) as [|a gs] eqn:E; [congruence|].
  change (length (u :: us) =? 0)%nat with false.
  change (length (a :: gs) =? 0)%nat with false.
  rewrite !orb_false_l. exact (go_matchAppGroups_iff (a :: gs) (u :: us)).
Qed.

(** On ASCII names the package is on its ASCII path. *)
Lemma go_match_ascii (a u : string) :
  isASCII a = true -> isASCII u = true ->
  go_EqualFold (go_TrimSpace a) (go_TrimSpace u)
  = strings.EqualFold (strings.TrimSpace a) (strings.TrimSpace u).
Proof.
  intros Ha Hu. rewrite (go_TrimSpace_ascii _ Ha), (go_TrimSpace_ascii _ Hu).
  apply go_EqualFold_ascii; apply isASCII_TrimSpace; assumption.
Qed.

Lemma go_matchUserGroups_ascii (a : string) userGroups :
  isASCII a = true -> asciiNames userGroups = true ->
  Go.matchUserGroups a userGroups = matchUserGroups a userGroups.
Proof.
  intros Ha. unfold asciiNames.
  induction userGroups as [|u rest IH]; simpl; [reflexivity|].
  intros H. apply andb_true_iff in H as [Hu Hrest].
  rewrite (go_match_ascii _ _ Ha Hu), (IH Hrest). reflexivity.
Qed.

Lemma go_matchAppGroups_ascii appGroups userGroups :
  asciiNames appGroups = true -> asciiNames userGroups = true ->
  Go.matchAppGroups appGroups userGroups = matchAppGroups appGroups userGroups.
Proof.
  unfold asciiNames at 1. intros Ha Hu.
  induction appGroups as [|a rest IH]; simpl; [reflexivity|].
  simpl in Ha. apply andb_true_iff in Ha as [Ha Hrest].
  rewrite (go_matchUserGroups_ascii _ _ Ha Hu), (IH Hrest). reflexivity.
Qed.

Lemma go_passes_ascii userGroups app :
  asciiNames (Groups app) = true -> asciiNames userGroups = true ->
  Go.passes userGroups app = passes userGroups app.
Proof.
  intros Ha Hu. rewrite go_passes_unfold, passes_unfold, (go_matchAppGroups_ascii _ _ Ha Hu).
  reflexivity.
Qed.

Lemma go_filter_ascii apps userGroups :
  forallb (fun app => asciiNames (Groups app)) apps = true ->
  asciiNames userGroups = true ->
  Go.filterAppsByGroups apps userGroups = filterAppsByGroups apps userGroups.
Proof.
  intros Ha Hu. rewrite go_filter, filterAppsByGroups_filter.
  induction apps as [|app rest IH]; [reflexivity|].
  simpl in Ha. apply andb_true_iff in Ha as [Happ Hrest].
  simpl. rewrite (go_passes_ascii _ _ Happ Hu), (IH Hrest). reflexivity.
Qed.

End GoFilterFacts.

(** In the ASCII model, with groups on both sides, passing is finding two
    names with the same normal form. *)
Lemma passes_iff_normalize (app : App) (userGroups : list string) :
  Groups app <> [] -> userGroups <> [] ->
  (passes userGroups app = true <->
   exists ag ug, In ag (Groups app) /\ In ug userGroups /\ normalize ag = normalize ug).
Proof.
  intros Happ Hug. rewrite passes_unfold.
  destruct userGroups as [|u us]; [congruence|].
  destruct (Groups app) as [|a gs] eqn:E; [congruence|].
  change (length (u :: us) =? 0)%nat with false.
  change (length (a :: gs) =? 0)%nat with false.
  rewrite !orb_false_l. exact (matchAppGroups_iff (a :: gs) (u :: us)).
Qed.

(** C1.  With groups on the application and on the caller, the filter
    passes the application exactly when one of its groups and one of the
    caller's groups are equal under [strings.EqualFold] once
    [strings.TrimSpace] has been applied to both, which for Go is
    equality without regard to case after the white space around both has
    been taken off.  For ASCII names this is spelled out without the two
    functions: the names, each without the white space before and after
    it, have the same lower-case form.  An application restricted to
    ["Admins "] passes for the caller group ["admins"], and white space in
    front, tabs and upper case on the caller's side are of no account
    either, while a different name does not pass. *)
Theorem C1_groups_match_trimmed_caseless (P : GoStrings) :
  (forall (app : App) (userGroups : list string),
      Groups app <> [] -> userGroups <> [] ->
      (Go.passes userGroups app = true <->
       exists ag ug, In ag (Groups app) /\ In ug userGroups /\
                     go_EqualFold (go_TrimSpace ag) (go_TrimSpace ug) = true)
      /\ (forall apps : list App,
            In app (Go.filterAppsByGroups apps userGroups) <->
            In app apps /\
            exists ag ug, In ag (Groups app) /\ In ug userGroups /\
                          go_EqualFold (go_TrimSpace ag) (go_TrimSpace ug) = true)
      /\ (asciiNames (Groups app) = true -> asciiNames userGroups = true ->
          (Go.passes userGroups app = true <->
           exists ag ug, In ag (Groups app) /\ In ug userGroups /\ sameGroup ag ug)))
  /\ (forall title icon url description : string,
        Go.filterAppsByGroups
          [{| Title := title; Icon := icon; URL := url;
              Groups := ["Admins "]; Description := description |}] ["admins"]
        = [{| Title := title; Icon := icon; URL := url;
              Groups := ["Admins "]; Description := description |}]
        /\ Go.filterAppsByGroups
             [{| Title := title; Icon := icon; URL := url;
                 Groups := ["  admins"]; Description := description |}]
             [String (ascii_of_nat 9) "ADMINS" +:+ String (ascii_of_nat 10) " "]
           = [{| Title := title; Icon := icon; URL := url;
                 Groups := ["  admins"]; Description := description |}]
        /\ Go.filterAppsByGroups
             [{| Title := title; Icon := icon; URL := url;
                 Groups := ["Admins "]; Description := description |}] ["admin"; "ad mins"]
           = []).
Proof.
  split.
  - intros app userGroups Happ Hug.
    pose proof (go_passes_iff userGroups app Happ Hug) as Hp.
    split; [exact Hp|]. split.
    + intros apps. rewrite go_filter_In, Hp. reflexivity.
    + intros Ha Hu. rewrite (go_passes_ascii _ _ Ha Hu), (passes_iff_normalize _ _ Happ Hug).
      split; intros (ag & ug & H1 & H2 & H3); exists ag, ug;
        (split; [exact H1|]; split; [exact H2|]); apply sameGroup_normalize; exact H3.
  - intros. rewrite !go_filter_ascii by reflexivity. repeat split.
Qed.

Lemma C1_witness_admins :
  Go.passes (P := asciiStrings) ["ops"; " admins"]
    {| Title := "Grafana"; Icon := ""; URL := "https://example.com";
       Groups := ["dev"; "Admins "]; Description := "" |} = true
  <-> exists ag ug, In ag ["dev"; "Admins "] /\ In ug ["ops"; " admins"] /\ sameGroup ag ug.
Proof.
  refine (proj2 (proj2 (proj1 (C1_groups_match_trimmed_caseless asciiStrings)
           {| Title := "Grafana"; Icon := ""; URL := "https://example.com";
              Groups := ["dev"; "Admins "]; Description := "" |} ["ops"; " admins"] _ _))
           _ _);
    simpl; try discriminate; reflexivity.
Defined.

(** C3.  For a caller with no groups the filter hands back its input as
    it is: every application passes. *)
Theorem C3_empty_caller_identity (apps : list App) :
  filterAppsByGroups apps [] = apps
  /\ forall app : App, passes [] app = true.
Proof. split; [reflexivity | intros app; reflexivity]. Qed.

(** C4.  The output of the filter is a subsequence of its input: it is
    the input with the applications that do not pass taken out, in the
    input's order, so of [A; B; C] with only [B] excluded [A; C] remains;
    an application that passes is kept once, whatever the number of its
    groups that match. *)
Theorem C4_filter_subsequence (apps : list App) (userGroups : list string) :
  filterAppsByGroups apps userGroups `sublist_of` apps
  /\ filterAppsByGroups apps userGroups = List.filter (passes userGroups) apps
  /\ (forall A B C : App,
        passes userGroups A = true -> passes userGroups B = false ->
        passes userGroups C = true ->
        filterAppsByGroups [A; B; C] userGroups = [A; C])
  /\ (forall app : App,
        passes userGroups app = true -> filterAppsByGroups [app] userGroups = [app]).
Proof.
  split; [|split; [|split]].
  - rewrite filterAppsByGroups_filter. apply filter_sublist.
  - apply filterAppsByGroups_filter.
  - intros A B C HA HB HC. rewrite filterAppsByGroups_filter. simpl.
    rewrite HA, HB, HC. reflexivity.
  - intros app H. rewrite filterAppsByGroups_filter. simpl. rewrite H. reflexivity.
Qed.

Lemma C4_witness_order :
  filterAppsByGroups
    [ {| Title := "A"; Icon := ""; URL := ""; Groups := ["ops"; "Dev "; "dev"]; Description := "" |};
      {| Title := "B"; Icon := ""; URL := ""; Groups := ["finance"]; Description := "" |};
      {| Title := "C"; Icon := ""; URL := ""; Groups := []; Description := "" |} ]
    ["dev"; "ops"]
  = [ {| Title := "A"; Icon := ""; URL := ""; Groups := ["ops"; "Dev "; "dev"]; Description := "" |};
      {| Title := "C"; Icon := ""; URL := ""; Groups := []; Description := "" |} ].
Proof.
  refine (proj1 (proj2 (proj2 (C4_filter_subsequence [] ["dev"; "ops"]))) _ _ _ _ _ _);
    reflexivity.
Defined.

(** C5.  An application without groups passes for every caller, with or
    without groups of their own. *)
Theorem C5_public_app_passes (app : App) (userGroups : list string) :
  Groups app = [] ->
  passes userGroups app = true
  /\ forall apps : list App, In app apps -> In app (filterAppsByGroups apps userGroups).
Proof.
  intros H.
  assert (Hp : passes userGroups app = true).
  { rewrite passes_unfold, H. simpl. rewrite orb_true_r. reflexivity. }
  split; [exact Hp|].
  intros apps Hin. apply filterAppsByGroups_In. auto.
Qed.

Lemma C5_witness_public :
  passes ["dev"]
    {| Title := "Wiki"; Icon := ""; URL := ""; Groups := []; Description := "" |} = true
  /\ passes []
    {| Title := "Wiki"; Icon := ""; URL := ""; Groups := []; Description := "" |} = true.
Proof.
  split.
  - exact (proj1 (C5_public_app_passes
      {| Title := "Wiki"; Icon := ""; URL := ""; Groups := []; Description := "" |}
      ["dev"] eq_refl)).
  - exact (proj1 (C5_public_app_passes
      {| Title := "Wiki"; Icon := ""; URL := ""; Groups := []; Description := "" |}
      [] eq_refl)).
Defined.

(* ===================================================================== *)
(** ** The annotation mapper: what the two loops emit *)
(* ===================================================================== *)

Section MapperFacts.

Implicit Types (bag : gmap string string) (apps : list App).



(** The test of the loops against the literal, read on the bag. *)
Lemma enabled_test bag :
  (index bag "dashboard.home/enabled" =? "true") = true
  <-> bag !! "dashboard.home/enabled" = Some "true".
Proof.
  rewrite String.eqb_eq. unfold index.
  destruct (bag !! "dashboard.home/enabled") as [v|]; simpl.
  - split; [intros ->; reflexivity | intros [= ->]; reflexivity].
  - split; discriminate.
Qed.

Lemma demoLoop_acc (ings : list IngressConfig) apps :
  demoLoop ings apps = apps ++ demoLoop ings [].
Proof.
  revert apps. induction ings as [|ing rest IH]; intros apps; simpl.
  - rewrite app_nil_r. reflexivity.
  - destruct (negb _); [apply IH|].
    rewrite IH. symmetry. rewrite IH. rewrite app_assoc. reflexivity.
Qed.

Lemma k8sLoop_acc (items : list v1.Ingress) apps :
  k8sLoop items apps = apps ++ k8sLoop items [].
Proof.
  revert apps. induction items as [|ing rest IH]; intros apps; simpl.
  - rewrite app_nil_r. reflexivity.
  - destruct (negb _); [apply IH|].
    rewrite IH. symmetry. rewrite IH. rewrite app_assoc. reflexivity.
Qed.

(** Each record is mapped on its own, in the order of the listing. *)
Lemma demoLoop_app (l1 l2 : list IngressConfig) :
  demoLoop (l1 ++ l2) [] = demoLoop l1 [] ++ demoLoop l2 [].
Proof.
  induction l1 as [|ing rest IH]; simpl; [reflexivity|].
  destruct (negb _); [exact IH|].
  rewrite demoLoop_acc, IH, (demoLoop_acc rest [_]), app_assoc. reflexivity.
Qed.

Lemma k8sLoop_app (l1 l2 : list v1.Ingress) :
  k8sLoop (l1 ++ l2) [] = k8sLoop l1 [] ++ k8sLoop l2 [].
Proof.
  induction l1 as [|ing rest IH]; simpl; [reflexivity|].
  destruct (negb _); [exact IH|].
  rewrite k8sLoop_acc, IH, (k8sLoop_acc rest [_]), app_assoc. reflexivity.
Qed.

Lemma demoLoop_each (ings : list IngressConfig) :
  demoLoop ings [] = flat_map (fun ing => demoLoop [ing] []) ings.
Proof.
  induction ings as [|ing rest IH]; [reflexivity|].
  change (ing :: rest) with ([ing] ++ rest).
  rewrite demoLoop_app, IH. reflexivity.
Qed.

Lemma k8sLoop_each (items : list v1.Ingress) :
  k8sLoop items [] = flat_map (fun ing => k8sLoop [ing] []) items.
Proof.
  induction items as [|ing rest IH]; [reflexivity|].
  change (ing :: rest) with ([ing] ++ rest).
  rewrite k8sLoop_app, IH. reflexivity.
Qed.

Lemma demoLoop_disabled bag :
  bag !! "dashboard.home/enabled" <> Some "true" ->
  demoLoop [{| Annotations := bag |}] [] = [].
Proof.
  intros H. simpl.
  destruct (index bag "dashboard.home/enabled" =? "true") eqn:E; [|reflexivity].
  apply enabled_test in E. contradiction.
Qed.

Lemma k8sLoop_disabled (ing : v1.Ingress) :
  v1.Annotations ing !! "dashboard.home/enabled" <> Some "true" ->
  k8sLoop [ing] [] = [].
Proof.
  intros H. simpl.
  destruct (index (v1.Annotations ing) "dashboard.home/enabled" =? "true") eqn:E;
    [|reflexivity].
  apply enabled_test in E. contradiction.
Qed.

Lemma demoLoop_enabled bag :
  bag !! "dashboard.home/enabled" = Some "true" ->
  demoLoop [{| Annotations := bag |}] [] =
  [{| Title := index bag "dashboard.home/title";
      Icon := index bag "dashboard.home/icon";
      URL := "https://example.com";
      Groups := groupsOf bag;
      Description := index bag "dashboard.home/description" |}].
Proof.
  intros H. apply enabled_test in H. unfold groupsOf. simpl. rewrite H. simpl.
  destruct (index bag "dashboard.home/groups" =? ""); reflexivity.
Qed.

Lemma k8sLoop_enabled (ing : v1.Ingress) :
  v1.Annotations ing !! "dashboard.home/enabled" = Some "true" ->
  k8sLoop [ing] [] =
  [{| Title := index (v1.Annotations ing) "dashboard.home/title";
      Icon := index (v1.Annotations ing) "dashboard.home/icon";
      URL := getIngressURL ing;
      Groups := groupsOf (v1.Annotations ing);
      Description := index (v1.Annotations ing) "dashboard.home/description" |}].
Proof.
  intros H. apply enabled_test in H. unfold groupsOf. simpl. rewrite H. simpl.
  destruct (index (v1.Annotations ing) "dashboard.home/groups" =? ""); reflexivity.
Qed.



End MapperFacts.





(** C7 (as amended).  With at least one rule, the derived URL is the host
    of the first rule behind ["https://"] when the record carries any TLS
    entry at all, whichever hosts that entry names, and behind ["http://"]
    when it carries none; without rules it is the empty string.  TLS
    configured for the first rule therefore gives ["https://"], and so does
    TLS configured only for another host. *)
Theorem C7_ingress_url (ing : v1.Ingress) :
  (forall (rule : v1.IngressRule) (rest : list v1.IngressRule),
      v1.Rules (v1.Spec ing) = rule :: rest ->
      (v1.TLS (v1.Spec ing) <> [] -> getIngressURL ing = "https://" +:+ v1.Host rule)
      /\ (v1.TLS (v1.Spec ing) = [] -> getIngressURL ing = "http://" +:+ v1.Host rule)
      /\ (tlsConfiguredFor ing rule = true -> getIngressURL ing = "https://" +:+ v1.Host rule))
  /\ (v1.Rules (v1.Spec ing) = [] -> getIngressURL ing = "").
Proof.
  unfold getIngressURL, tlsConfiguredFor. split.
  - intros rule rest ->. destruct (v1.TLS (v1.Spec ing)) as [|t ts].
    + split; [congruence|]. split; [reflexivity | discriminate].
    + split; [reflexivity|]. split; [discriminate | reflexivity].
  - intros ->. reflexivity.
Qed.

Lemma C7_witness_urls :
  getIngressURL (ingressOf ∅ ["app.example.com"]
                   [{| v1.Hosts := ["app.example.com"]; v1.SecretName := "app-tls" |}])
  = "https://app.example.com"
  /\ getIngressURL (ingressOf ∅ ["app.example.com"] []) = "http://app.example.com"
  /\ getIngressURL (ingressOf ∅ [] []) = "".
Proof.
  split; [|split].
  - apply (proj1 (proj1 (C7_ingress_url (ingressOf ∅ ["app.example.com"]
             [{| v1.Hosts := ["app.example.com"]; v1.SecretName := "app-tls" |}]))
             {| v1.Host := "app.example.com" |} [] eq_refl)).
    discriminate.
  - apply (proj1 (proj2 (proj1 (C7_ingress_url (ingressOf ∅ ["app.example.com"] []))
             {| v1.Host := "app.example.com" |} [] eq_refl))).
    reflexivity.
  - apply (proj2 (C7_ingress_url (ingressOf ∅ [] []))). reflexivity.
Defined.

(** C7, where the specification's sentence fails: a record whose only TLS entry is for
    [b.example.com] and whose first rule is for [a.example.com] has no TLS
    configured for that rule, and still gets an ["https://"] URL. *)
Lemma C7_counterexample_tls_other_host :
  tlsConfiguredFor
    (ingressOf ∅ ["a.example.com"; "b.example.com"]
       [{| v1.Hosts := ["b.example.com"]; v1.SecretName := "b-tls" |}])
    {| v1.Host := "a.example.com" |} = false
  /\ specIngressURL
       (ingressOf ∅ ["a.example.com"; "b.example.com"]
          [{| v1.Hosts := ["b.example.com"]; v1.SecretName := "b-tls" |}])
     = "http://a.example.com"
  /\ getIngressURL
       (ingressOf ∅ ["a.example.com"; "b.example.com"]
          [{| v1.Hosts := ["b.example.com"]; v1.SecretName := "b-tls" |}])
     = "https://a.example.com".
Proof. repeat split. Qed.




(* ===================================================================== *)
(** ** The adapters: which calls are made and what comes back *)
(* ===================================================================== *)

Section AdapterFacts.

Variable env : Env.

Ltac io_unfold :=
  unfold run, getDemoApps, loadDemoGroups, getK8sApps, demoAppsOf, demoGroupsOf,
    ReadFile, Unmarshal, InClusterConfig, NewForConfig, ListIngresses,
    io_bind, io_ret, emit.

(** The stage after the reads makes one call, to the decoder, on the
    bytes it was given, and fails exactly with the decoder's error. *)
Lemma demoAppsOf_run (data : string) (tr : list Event) :
  demoAppsOf env data tr =
  (match yaml_Unmarshal env data with
   | (_, Some e) => ([], Some e)
   | (config, None) => (demoLoop (Ingresses config) [], None)
   end, tr ++ [EvUnmarshal data]).
Proof.
  io_unfold. destruct (yaml_Unmarshal env data) as [config [e|]]; reflexivity.
Qed.

Lemma getDemoApps_primary (data : string) :
  os_ReadFile env "/etc/dashboard/config.yaml" = (data, None) ->
  run (getDemoApps env) = demoAppsOf env data [EvReadFile "/etc/dashboard/config.yaml"].
Proof. intros H. io_unfold. simpl. rewrite H. reflexivity. Qed.

Lemma getDemoApps_fallback (d1 : string) (e1 : error) (data : string) :
  os_ReadFile env "/etc/dashboard/config.yaml" = (d1, Some e1) ->
  os_ReadFile env "config.yaml" = (data, None) ->
  run (getDemoApps env) =
  demoAppsOf env data [EvReadFile "/etc/dashboard/config.yaml"; EvReadFile "config.yaml"].
Proof. intros H1 H2. io_unfold. simpl. rewrite H1. simpl. rewrite H2. reflexivity. Qed.

Lemma getDemoApps_unreadable (d1 d2 : string) (e1 e2 : error) :
  os_ReadFile env "/etc/dashboard/config.yaml" = (d1, Some e1) ->
  os_ReadFile env "config.yaml" = (d2, Some e2) ->
  run (getDemoApps env) =
  (([], Some e2), [EvReadFile "/etc/dashboard/config.yaml"; EvReadFile "config.yaml"]).
Proof. intros H1 H2. io_unfold. simpl. rewrite H1. simpl. rewrite H2. reflexivity. Qed.

(** [loadDemoGroups] reads the same two paths in the same order; it keeps
    the groups it had when nothing can be read. *)
Lemma loadDemoGroups_unreadable (before : list string) (d1 d2 : string) (e1 e2 : error) :
  os_ReadFile env "/etc/dashboard/config.yaml" = (d1, Some e1) ->
  os_ReadFile env "config.yaml" = (d2, Some e2) ->
  run (loadDemoGroups env before) =
  (before, [EvReadFile "/etc/dashboard/config.yaml"; EvReadFile "config.yaml"]).
Proof. intros H1 H2. io_unfold. simpl. rewrite H1. simpl. rewrite H2. reflexivity. Qed.

Lemma loadDemoGroups_fallback (before : list string) (d1 : string) (e1 : error) (data : string) :
  os_ReadFile env "/etc/dashboard/config.yaml" = (d1, Some e1) ->
  os_ReadFile env "config.yaml" = (data, None) ->
  run (loadDemoGroups env before) =
  demoGroupsOf env before data
    [EvReadFile "/etc/dashboard/config.yaml"; EvReadFile "config.yaml"].
Proof. intros H1 H2. io_unfold. simpl. rewrite H1. simpl. rewrite H2. reflexivity. Qed.

(** A fetch that reports an error carries no application. *)
Lemma getDemoApps_error_nil (apps : list App) (e : error) :
  fst (run (getDemoApps env)) = (apps, Some e) -> apps = [].
Proof.
  destruct (os_ReadFile env "/etc/dashboard/config.yaml") as [d1 [e1|]] eqn:H1.
  - destruct (os_ReadFile env "config.yaml") as [d2 [e2|]] eqn:H2.
    + rewrite (getDemoApps_unreadable _ _ _ _ H1 H2). simpl. congruence.
    + rewrite (getDemoApps_fallback _ _ _ H1 H2), demoAppsOf_run. simpl.
      destruct (yaml_Unmarshal env d2) as [config [e'|]]; congruence.
  - rewrite (getDemoApps_primary _ H1), demoAppsOf_run. simpl.
    destruct (yaml_Unmarshal env d1) as [config [e'|]]; congruence.
Qed.

Lemma getK8sApps_error_nil (apps : list App) (e : error) :
  fst (run (getK8sApps env)) = (apps, Some e) -> apps = [].
Proof.
  io_unfold. simpl.
  destruct (rest_InClusterConfig env) as [e1|c]; simpl; [congruence|].
  destruct (kubernetes_NewForConfig env c) as [e2|cs]; simpl; [congruence|].
  destruct (Ingresses_List env cs) as [e3|items]; simpl; congruence.
Qed.

Lemma getK8sApps_no_config (e : error) :
  rest_InClusterConfig env = inl e ->
  run (getK8sApps env) = (([], Some e), [EvInClusterConfig]).
Proof. intros H. io_unfold. simpl. rewrite H. reflexivity. Qed.

Lemma getK8sApps_no_client (c : RestConfig env) (e : error) :
  rest_InClusterConfig env = inr c ->
  kubernetes_NewForConfig env c = inl e ->
  run (getK8sApps env) = (([], Some e), [EvInClusterConfig; EvNewForConfig]).
Proof. intros H1 H2. io_unfold. simpl. rewrite H1. simpl. rewrite H2. reflexivity. Qed.

Lemma getK8sApps_no_list (c : RestConfig env) (cs : Clientset env) (e : error) :
  rest_InClusterConfig env = inr c ->
  kubernetes_NewForConfig env c = inr cs ->
  Ingresses_List env cs = inl e ->
  run (getK8sApps env) =
  (([], Some e), [EvInClusterConfig; EvNewForConfig; EvListIngresses]).
Proof.
  intros H1 H2 H3. io_unfold. simpl. rewrite H1. simpl. rewrite H2. simpl.
  rewrite H3. reflexivity.
Qed.

Lemma getK8sApps_listed (c : RestConfig env) (cs : Clientset env) (items : list v1.Ingress) :
  rest_InClusterConfig env = inr c ->
  kubernetes_NewForConfig env c = inr cs ->
  Ingresses_List env cs = inr items ->
  run (getK8sApps env) =
  ((k8sLoop items [], None), [EvInClusterConfig; EvNewForConfig; EvListIngresses]).
Proof.
  intros H1 H2 H3. io_unfold. simpl. rewrite H1. simpl. rewrite H2. simpl.
  rewrite H3. reflexivity.
Qed.

(** What the handler answers to a GET, from the outcome of the fetch. *)
Lemma handleApps_GET (g : Globals) (w : http.ResponseWriter) (r : http.Request) :
  http.Method r = "GET" ->
  fst (run (handleApps env g w r)) =
  match fst (run (if demoMode g then getDemoApps env else getK8sApps env)) with
  | (_, Some _) =>
      http.Error (http.Header_Set "Content-Type" "application/json" w)
        (jsonError "failed to fetch apps") http.StatusInternalServerError
  | (apps, None) =>
      http.Write (http.JSON (filterAppsByGroups apps (getUserGroups g r)))
        (http.Header_Set "Content-Type" "application/json" w)
  end.
Proof.
  intros H. unfold handleApps. rewrite H. simpl negb. cbv iota.
  unfold run, io_bind.
  destruct ((if demoMode g then getDemoApps env else getK8sApps env) [])
    as [[apps [e|]] tr]; reflexivity.
Qed.

End AdapterFacts.

(** The spec's scenario for the static source: of two entries, one enabled
    for [dev] and one not enabled, a caller in [dev] is sent the first and
    nothing else. *)
Example scenario_static_two_entries :
  run (loadDemoGroups
         (sampleEnv {[ "/etc/dashboard/config.yaml" := "two entries" ]}
            {[ "two entries" := twoEntries ]} (inr [])) [])
  = (["dev"], [EvReadFile "/etc/dashboard/config.yaml"; EvUnmarshal "two entries"])
  /\ fst (run (handleApps
         (sampleEnv {[ "/etc/dashboard/config.yaml" := "two entries" ]}
            {[ "two entries" := twoEntries ]} (inr []))
         {| demoMode := true; demoGroups := ["dev"]; debugMode := false |}
         http.empty getRequest))
     = {| http.RespHeader := {[ "Content-Type" := "application/json" ]};
          http.Status := Some 200;
          http.Body := [http.JSON [{| Title := "Grafana"; Icon := "";
                                      URL := "https://example.com";
                                      Groups := ["dev"]; Description := "" |}]] |}.
Proof. split; vm_compute; reflexivity. Qed.

(** The same for the cluster source, with the header of the proxy. *)
Example scenario_cluster_listing :
  fst (run (handleApps
         (sampleEnv ∅ ∅
            (inr [ ingressOf (<["dashboard.home/title" := "Grafana"]> (bagWithGroups "ops, admins"))
                     ["grafana.example.com"]
                     [{| v1.Hosts := ["grafana.example.com"]; v1.SecretName := "tls" |}];
                   ingressOf yesBag ["wiki.example.com"] [] ]))
         {| demoMode := false; demoGroups := []; debugMode := false |}
         http.empty
         {| http.Method := "GET";
            http.Header := {[ "X-Forwarded-Groups" := "dev, Admins" ]};
            http.RemoteAddr := "10.0.0.7:51000" |}))
  = {| http.RespHeader := {[ "Content-Type" := "application/json" ]};
       http.Status := Some 200;
       http.Body := [http.JSON [{| Title := "Grafana"; Icon := "";
                                   URL := "https://grafana.example.com";
                                   Groups := ["ops"; " admins"]; Description := "" |}]] |}.
Proof. vm_compute. reflexivity. Qed.

(** C9.  The static adapter's fetch ends on a read error only when
    neither [/etc/dashboard/config.yaml] nor [config.yaml] can be read:
    after a failed first read it reads the second path before it returns,
    and the error it then returns is the second read's; when either read
    succeeds it goes on to decode the bytes of that file. *)
Theorem C9_fallback_before_failing (env : Env) :
  (forall (d1 d2 : string) (e1 e2 : error),
      os_ReadFile env "/etc/dashboard/config.yaml" = (d1, Some e1) ->
      os_ReadFile env "config.yaml" = (d2, Some e2) ->
      run (getDemoApps env) =
      (([], Some e2), [EvReadFile "/etc/dashboard/config.yaml"; EvReadFile "config.yaml"]))
  /\ (forall data : string,
        os_ReadFile env "/etc/dashboard/config.yaml" = (data, None) ->
        run (getDemoApps env) =
        demoAppsOf env data [EvReadFile "/etc/dashboard/config.yaml"])
  /\ (forall (d1 : string) (e1 : error) (data : string),
        os_ReadFile env "/etc/dashboard/config.yaml" = (d1, Some e1) ->
        os_ReadFile env "config.yaml" = (data, None) ->
        run (getDemoApps env) =
        demoAppsOf env data
          [EvReadFile "/etc/dashboard/config.yaml"; EvReadFile "config.yaml"])
  /\ (forall (data : string) (tr : list Event),
        snd (demoAppsOf env data tr) = tr ++ [EvUnmarshal data])
  /\ ((forall data : string, ~ In (EvUnmarshal data) (snd (run (getDemoApps env)))) ->
      is_Some (snd (os_ReadFile env "/etc/dashboard/config.yaml"))
      /\ is_Some (snd (os_ReadFile env "config.yaml"))
      /\ fst (run (getDemoApps env)) = ([], snd (os_ReadFile env "config.yaml"))).
Proof.
  split; [|split; [|split; [|split]]].
  - apply getDemoApps_unreadable.
  - apply getDemoApps_primary.
  - apply getDemoApps_fallback.
  - intros data tr. rewrite demoAppsOf_run. reflexivity.
  - intros Hno.
    destruct (os_ReadFile env "/etc/dashboard/config.yaml") as [d1 [e1|]] eqn:H1.
    + destruct (os_ReadFile env "config.yaml") as [d2 [e2|]] eqn:H2.
      * rewrite (getDemoApps_unreadable _ _ _ _ _ H1 H2). simpl. eauto.
      * exfalso. apply (Hno d2).
        rewrite (getDemoApps_fallback _ _ _ _ H1 H2), demoAppsOf_run. simpl. auto.
    + exfalso. apply (Hno d1).
      rewrite (getDemoApps_primary _ _ H1), demoAppsOf_run. simpl. auto.
Qed.

Lemma C9_witness_fallback_read :
  run (getDemoApps (sampleEnv {[ "config.yaml" := "two entries" ]} {[ "two entries" := twoEntries ]} (inr [])))
  = demoAppsOf (sampleEnv {[ "config.yaml" := "two entries" ]} {[ "two entries" := twoEntries ]} (inr []))
      "two entries" [EvReadFile "/etc/dashboard/config.yaml"; EvReadFile "config.yaml"]
  /\ run (getDemoApps (sampleEnv ∅ ∅ (inr [])))
     = (([], Some "open config.yaml: no such file or directory"),
        [EvReadFile "/etc/dashboard/config.yaml"; EvReadFile "config.yaml"]).
Proof.
  split.
  - refine (proj1 (proj2 (proj2 (C9_fallback_before_failing
               (sampleEnv {[ "config.yaml" := "two entries" ]} {[ "two entries" := twoEntries ]} (inr [])))))
               "" "open /etc/dashboard/config.yaml: no such file or directory"
               "two entries" _ _); vm_compute; reflexivity.
  - refine (proj1 (C9_fallback_before_failing (sampleEnv ∅ ∅ (inr [])))
             "" "" "open /etc/dashboard/config.yaml: no such file or directory"
             "open config.yaml: no such file or directory" _ _); vm_compute; reflexivity.
Defined.

(** C8.  A fetch whose source cannot be reached, or whose document does
    not decode, returns an error and no application: not those decoded
    before the failure, not some of them.  The handler then answers a GET
    with the one failure message, status 500, and encodes no list. *)
Theorem C8_fetch_all_or_nothing (env : Env) :
  (forall (apps : list App) (e : error),
      fst (run (getDemoApps env)) = (apps, Some e) \/
      fst (run (getK8sApps env)) = (apps, Some e) -> apps = [])
  /\ (is_Some (snd (os_ReadFile env "/etc/dashboard/config.yaml")) ->
      is_Some (snd (os_ReadFile env "config.yaml")) ->
      fst (run (getDemoApps env)) = ([], snd (os_ReadFile env "config.yaml")))
  /\ (forall (data : string) (config : Config) (e : error),
        os_ReadFile env "/etc/dashboard/config.yaml" = (data, None) \/
        (is_Some (snd (os_ReadFile env "/etc/dashboard/config.yaml")) /\
         os_ReadFile env "config.yaml" = (data, None)) ->
        yaml_Unmarshal env data = (config, Some e) ->
        fst (run (getDemoApps env)) = ([], Some e))
  /\ (forall e : error,
        rest_InClusterConfig env = inl e \/
        (exists c, rest_InClusterConfig env = inr c /\
                   kubernetes_NewForConfig env c = inl e) \/
        (exists c cs, rest_InClusterConfig env = inr c /\
                      kubernetes_NewForConfig env c = inr cs /\
                      Ingresses_List env cs = inl e) ->
        fst (run (getK8sApps env)) = ([], Some e))
  /\ (forall (g : Globals) (w : http.ResponseWriter) (r : http.Request)
             (apps : list App) (e : error),
        http.Method r = "GET" ->
        fst (run (if demoMode g then getDemoApps env else getK8sApps env)) = (apps, Some e) ->
        fst (run (handleApps env g w r)) =
          http.Error (http.Header_Set "Content-Type" "application/json" w)
            (jsonError "failed to fetch apps") 500
        /\ http.Body (fst (run (handleApps env g w r))) =
           http.Body w ++ [http.Text (jsonError "failed to fetch apps" +:+ http.newline)]
        /\ (http.Status w = None ->
            http.Status (fst (run (handleApps env g w r))) = Some 500)).
Proof.
  split; [|split; [|split; [|split]]].
  - intros apps e [H | H];
      [eapply getDemoApps_error_nil | eapply getK8sApps_error_nil]; exact H.
  - intros [e1 H1] [e2 H2].
    destruct (os_ReadFile env "/etc/dashboard/config.yaml") as [d1 o1] eqn:E1.
    destruct (os_ReadFile env "config.yaml") as [d2 o2] eqn:E2.
    simpl in *. subst. rewrite (getDemoApps_unreadable _ _ _ _ _ E1 E2). reflexivity.
  - intros data config e Hread Hbad.
    destruct Hread as [H1 | [[e1 H1] H2]].
    + rewrite (getDemoApps_primary _ _ H1), demoAppsOf_run, Hbad. reflexivity.
    + destruct (os_ReadFile env "/etc/dashboard/config.yaml") as [d1 o1] eqn:E1.
      simpl in H1. subst o1.
      rewrite (getDemoApps_fallback _ _ _ _ E1 H2), demoAppsOf_run, Hbad. reflexivity.
  - intros e [H | [(c & H1 & H2) | (c & cs & H1 & H2 & H3)]].
    + rewrite (getK8sApps_no_config _ _ H). reflexivity.
    + rewrite (getK8sApps_no_client _ _ _ H1 H2). reflexivity.
    + rewrite (getK8sApps_no_list _ _ _ _ H1 H2 H3). reflexivity.
  - intros g w r apps e Hget Hfetch.
    rewrite (handleApps_GET _ _ _ _ Hget), Hfetch.
    split; [reflexivity|]. split; [reflexivity|].
    intros Hs. unfold http.Error, http.Write, http.WriteHeader, http.Header_Set,
      http.Header_Del. simpl. rewrite Hs. reflexivity.
Qed.

Lemma C8_witness_malformed_document :
  fst (run (getDemoApps (sampleEnv {[ "config.yaml" := "ingresses: [" ]} ∅ (inr []))))
  = ([], Some "yaml: unmarshal errors")
  /\ http.Body (fst (run (handleApps
       (sampleEnv {[ "config.yaml" := "ingresses: [" ]} ∅ (inr []))
       {| demoMode := true; demoGroups := ["dev"]; debugMode := false |}
       http.empty getRequest)))
     = [http.Text (jsonError "failed to fetch apps" +:+ http.newline)]
  /\ fst (run (getK8sApps (sampleEnv ∅ ∅ (inl "connection refused"))))
     = ([], Some "connection refused").
Proof.
  split; [|split].
  - refine (proj1 (proj2 (proj2 (C8_fetch_all_or_nothing
              (sampleEnv {[ "config.yaml" := "ingresses: [" ]} ∅ (inr [])))))
              "ingresses: ["
              {| Config_Groups := "";
                 Ingresses := [{| Annotations := bagWithGroups "dev" |}] |}
              "yaml: unmarshal errors" _ _).
    + right. split; [eexists|]; vm_compute; reflexivity.
    + vm_compute. reflexivity.
  - refine (proj1 (proj2 (proj2 (proj2 (proj2 (proj2 (C8_fetch_all_or_nothing
              (sampleEnv {[ "config.yaml" := "ingresses: [" ]} ∅ (inr []))))))
              {| demoMode := true; demoGroups := ["dev"]; debugMode := false |}
              http.empty getRequest [] "yaml: unmarshal errors" eq_refl _))).
    vm_compute. reflexivity.
  - refine (proj1 (proj2 (proj2 (proj2 (C8_fetch_all_or_nothing
              (sampleEnv ∅ ∅ (inl "connection refused"))))))
              "connection refused" _).
    right. right. exists tt, tt. repeat split.
Defined.

(* ===================================================================== *)
(** ** Further properties of the filter *)
(* ===================================================================== *)

Section FilterAlgebra.

Implicit Types (app : App) (apps : list App) (userGroups appGroups : list string).

Lemma matchUserGroups_trimmed (appGroup : string) userGroups :
  matchUserGroups appGroup (List.map strings.TrimSpace userGroups)
  = matchUserGroups appGroup userGroups.
Proof.
  induction userGroups as [|u rest IH]; simpl; [reflexivity|].
  rewrite TrimSpace_idem, IH. reflexivity.
Qed.

Lemma matchAppGroups_trimmed appGroups userGroups :
  matchAppGroups appGroups (List.map strings.TrimSpace userGroups)
  = matchAppGroups appGroups userGroups.
Proof.
  induction appGroups as [|a rest IH]; simpl; [reflexivity|].
  rewrite matchUserGroups_trimmed, IH. reflexivity.
Qed.

Lemma matchUserGroups_trimmed_l (appGroup : string) userGroups :
  matchUserGroups (strings.TrimSpace appGroup) userGroups
  = matchUserGroups appGroup userGroups.
Proof.
  induction userGroups as [|u rest IH]; simpl; [reflexivity|].
  rewrite TrimSpace_idem, IH. reflexivity.
Qed.

Lemma matchAppGroups_trimmed_l appGroups userGroups :
  matchAppGroups (List.map strings.TrimSpace appGroups) userGroups
  = matchAppGroups appGroups userGroups.
Proof.
  induction appGroups as [|a rest IH]; simpl; [reflexivity|].
  rewrite matchUserGroups_trimmed_l, IH. reflexivity.
Qed.

Lemma filter_ext_passes apps (f g : App -> bool) :
  (forall app, In app apps -> f app = g app) ->
  List.filter f apps = List.filter g apps.
Proof.
  induction apps as [|a rest IH]; intros H; simpl; [reflexivity|].
  rewrite (H a (or_introl eq_refl)), IH; [reflexivity|].
  intros app Hin. apply H. right. exact Hin.
Qed.

Lemma filter_sublist_impl apps (f g : App -> bool) :
  (forall app, f app = true -> g app = true) ->
  List.filter f apps `sublist_of` List.filter g apps.
Proof.
  intros H. induction apps as [|a rest IH]; simpl; [constructor|].
  destruct (f a) eqn:E.
  - rewrite (H a E). apply sublist_skip, IH.
  - destruct (g a); [apply sublist_cons, IH | exact IH].
Qed.

Lemma passes_monotone userGroups userGroups' app :
  userGroups <> [] -> incl userGroups userGroups' ->
  passes userGroups app = true -> passes userGroups' app = true.
Proof.
  intros Hne Hincl. rewrite !passes_unfold.
  destruct userGroups as [|u us]; [congruence|].
  destruct userGroups' as [|u' us']; [destruct (Hincl u (or_introl eq_refl))|].
  change (length (u :: us) =? 0)%nat with false.
  change (length (u' :: us') =? 0)%nat with false.
  rewrite !orb_false_l.
  destruct (length (Groups app) =? 0)%nat; [reflexivity|].
  rewrite !orb_false_l, !matchAppGroups_iff.
  intros (ag & ug & Hag & Hug & Heq). exists ag, ug. auto.
Qed.

End FilterAlgebra.

(** X1.  White space around a group name is of no account to the filter,
    on either side: a caller whose groups were trimmed beforehand (as
    [getUserGroups] does) gets the same list, and an application passes
    or not all the same when its groups are trimmed. *)
Theorem X1_filter_ignores_outer_space (apps : list App) (userGroups : list string) :
  filterAppsByGroups apps (List.map strings.TrimSpace userGroups)
  = filterAppsByGroups apps userGroups
  /\ forall app : App,
       passes userGroups (withGroups (List.map strings.TrimSpace (Groups app)) app)
       = passes userGroups app.
Proof.
  split.
  - rewrite !filterAppsByGroups_filter. apply filter_ext_passes.
    intros app _. rewrite !passes_unfold, length_map, matchAppGroups_trimmed.
    reflexivity.
  - intros app. rewrite !passes_unfold. simpl Groups.
    rewrite length_map, matchAppGroups_trimmed_l. reflexivity.
Qed.

(** X2.  Filtering twice for the same caller is filtering once, and the
    filter of a concatenation is the concatenation of the filters. *)
Theorem X2_filter_idempotent_and_append (apps apps' : list App) (userGroups : list string) :
  filterAppsByGroups (filterAppsByGroups apps userGroups) userGroups
  = filterAppsByGroups apps userGroups
  /\ filterAppsByGroups (apps ++ apps') userGroups
     = filterAppsByGroups apps userGroups ++ filterAppsByGroups apps' userGroups.
Proof.
  rewrite !filterAppsByGroups_filter. split.
  - induction apps as [|a l IH]; simpl; [reflexivity|].
    destruct (passes userGroups a) eqn:E; simpl; rewrite ?E, IH; reflexivity.
  - apply List.filter_app.
Qed.

(** X3.  For a caller with at least one group, more groups never hide an
    application: the list for a smaller group set is a subsequence of the
    list for any group set that contains it. *)
Theorem X3_filter_monotone (apps : list App) (userGroups userGroups' : list string) :
  userGroups <> [] ->
  incl userGroups userGroups' ->
  filterAppsByGroups apps userGroups `sublist_of` filterAppsByGroups apps userGroups'.
Proof.
  intros Hne Hincl. rewrite !filterAppsByGroups_filter.
  apply filter_sublist_impl. intros app. apply passes_monotone; assumption.
Qed.

Lemma X3_witness_more_groups :
  filterAppsByGroups
    [ {| Title := "A"; Icon := ""; URL := ""; Groups := ["ops"]; Description := "" |};
      {| Title := "B"; Icon := ""; URL := ""; Groups := ["dev"]; Description := "" |} ]
    ["dev"]
  `sublist_of`
  filterAppsByGroups
    [ {| Title := "A"; Icon := ""; URL := ""; Groups := ["ops"]; Description := "" |};
      {| Title := "B"; Icon := ""; URL := ""; Groups := ["dev"]; Description := "" |} ]
    ["ops"; "dev"].
Proof.
  apply (X3_filter_monotone _ ["dev"] ["ops"; "dev"]).
  - discriminate.
  - intros x [<- | []]. right. left. reflexivity.
Defined.

(** X4.  The answer depends on the caller's groups as a set: two lists
    with the same members, in any order and with any repetitions, give the
    same filtered list. *)
Theorem X4_filter_caller_set (apps : list App) (userGroups userGroups' : list string) :
  (forall g : string, In g userGroups <-> In g userGroups') ->
  filterAppsByGroups apps userGroups = filterAppsByGroups apps userGroups'.
Proof.
  intros H. destruct userGroups as [|u us].
  - destruct userGroups' as [|u' us']; [reflexivity|].
    destruct (proj2 (H u') (or_introl eq_refl)).
  - destruct userGroups' as [|u' us'].
    + destruct (proj1 (H u) (or_introl eq_refl)).
    + rewrite !filterAppsByGroups_filter. apply filter_ext_passes. intros app _.
      destruct (passes (u :: us) app) eqn:E1; destruct (passes (u' :: us') app) eqn:E2;
        try reflexivity.
      * rewrite (passes_monotone (u :: us) (u' :: us') app) in E2;
          [discriminate | discriminate | intros x; apply H | exact E1].
      * rewrite (passes_monotone (u' :: us') (u :: us) app) in E1;
          [discriminate | discriminate | intros x; apply H | exact E2].
Qed.

Lemma X4_witness_reordered :
  filterAppsByGroups
    [ {| Title := "A"; Icon := ""; URL := ""; Groups := ["ops"]; Description := "" |} ]
    ["dev"; "ops"; "dev"]
  = filterAppsByGroups
    [ {| Title := "A"; Icon := ""; URL := ""; Groups := ["ops"]; Description := "" |} ]
    ["ops"; "dev"].
Proof.
  apply (X4_filter_caller_set _ ["dev"; "ops"; "dev"] ["ops"; "dev"]).
  intros g. simpl. tauto.
Defined.

(* ===================================================================== *)
(** ** Further properties of the request handler *)
(* ===================================================================== *)

Section HandlerFacts.

Lemma Split_length (s : string) (c : ascii) :
  length (strings.Split s c) = S (strings.Count s c).
Proof.
  induction s as [|a s IH]; simpl; [reflexivity|].
  destruct (Ascii.eqb a c); simpl; [rewrite IH; reflexivity|].
  destruct (strings.Split s c) as [|p ps]; simpl in *; [discriminate | exact IH].
Qed.

Lemma getDemoApps_trace (env : Env) :
  forallb isConfigCall (snd (run (getDemoApps env))) = true.
Proof.
  destruct (os_ReadFile env "/etc/dashboard/config.yaml") as [d1 [e1|]] eqn:H1.
  - destruct (os_ReadFile env "config.yaml") as [d2 [e2|]] eqn:H2.
    + rewrite (getDemoApps_unreadable _ _ _ _ _ H1 H2). reflexivity.
    + rewrite (getDemoApps_fallback _ _ _ _ H1 H2), demoAppsOf_run. reflexivity.
  - rewrite (getDemoApps_primary _ _ H1), demoAppsOf_run. reflexivity.
Qed.

Lemma getK8sApps_trace (env : Env) :
  forallb isClientCall (snd (run (getK8sApps env))) = true.
Proof.
  destruct (rest_InClusterConfig env) as [e1|c] eqn:H1.
  - rewrite (getK8sApps_no_config _ _ H1). reflexivity.
  - destruct (kubernetes_NewForConfig env c) as [e2|cs] eqn:H2.
    + rewrite (getK8sApps_no_client _ _ _ H1 H2). reflexivity.
    + destruct (Ingresses_List env cs) as [e3|items] eqn:H3.
      * rewrite (getK8sApps_no_list _ _ _ _ H1 H2 H3). reflexivity.
      * rewrite (getK8sApps_listed _ _ _ _ H1 H2 H3). reflexivity.
Qed.

(** A GET makes the calls of the fetch and no other. *)
Lemma handleApps_GET_trace (env : Env) (g : Globals) (w : http.ResponseWriter)
    (r : http.Request) :
  http.Method r = "GET" ->
  snd (run (handleApps env g w r)) =
  snd (run (if demoMode g then getDemoApps env else getK8sApps env)).
Proof.
  intros H. unfold handleApps. rewrite H. simpl negb. cbv iota.
  unfold run, io_bind.
  destruct ((if demoMode g then getDemoApps env else getK8sApps env) [])
    as [[apps [e|]] tr]; reflexivity.
Qed.

Lemma handleApps_not_GET (env : Env) (g : Globals) (w : http.ResponseWriter)
    (r : http.Request) :
  http.Method r <> "GET" ->
  run (handleApps env g w r) =
  (http.Error (http.Header_Set "Content-Type" "application/json" w)
     (jsonError "method not allowed") http.StatusMethodNotAllowed, []).
Proof.
  intros H. unfold handleApps.
  destruct (String.eqb_spec (http.Method r) "GET") as [E | _]; [contradiction|].
  reflexivity.
Qed.

Lemma Error_headers (w : http.ResponseWriter) (msg : string) (code : nat) :
  http.RespHeader (http.Error w msg code) !! "Content-Type"
    = Some "text/plain; charset=utf-8"
  /\ http.RespHeader (http.Error w msg code) !! "X-Content-Type-Options" = Some "nosniff"
  /\ http.RespHeader (http.Error w msg code) !! "Content-Length" = None.
Proof.
  unfold http.Error, http.Write, http.WriteHeader, http.Header_Set, http.Header_Del.
  simpl. split; [|split].
  - rewrite lookup_insert_ne by discriminate. apply lookup_insert_eq.
  - apply lookup_insert_eq.
  - rewrite !lookup_insert_ne by discriminate. apply lookup_delete_eq.
Qed.

End HandlerFacts.

(** X5.  The caller's groups: in demo mode they are the configured demo
    groups whatever the request holds; otherwise a request without the
    [X-Forwarded-Groups] header (or with an empty one) has none, and a
    non-empty header gives one group per piece between commas, namely
    [strings.TrimSpace] of the piece, so never the empty list, not even
    for a header of blanks.  For an ASCII header each group is its piece
    without the white space before and after it. *)
Theorem X5_header_groups (P : GoStrings) (g : Globals) (r : http.Request) :
  (demoMode g = true -> Go.getUserGroups g r = demoGroups g)
  /\ (demoMode g = false ->
      http.Header r !! "X-Forwarded-Groups" = None \/
      http.Header r !! "X-Forwarded-Groups" = Some "" ->
      Go.getUserGroups g r = [])
  /\ (forall header : string,
        demoMode g = false ->
        http.Header r !! "X-Forwarded-Groups" = Some header -> header <> "" ->
        Go.getUserGroups g r = List.map go_TrimSpace (strings.Split header comma)
        /\ Go.getUserGroups g r <> []
        /\ length (Go.getUserGroups g r) = S (strings.Count header comma)
        /\ (isASCII header = true ->
            Forall2 TrimOf (strings.Split header comma) (Go.getUserGroups g r))).
Proof.
  unfold Go.getUserGroups. split; [|split].
  - intros ->. reflexivity.
  - intros -> [H | H]; unfold index; rewrite H; reflexivity.
  - intros header -> H Hne. unfold index. rewrite H. simpl.
    destruct (String.eqb_spec header "") as [E | _]; [contradiction|].
    split; [reflexivity|]. split; [|split].
    + pose proof (Split_nonempty header comma).
      destruct (strings.Split header comma); [congruence | discriminate].
    + rewrite length_map. apply Split_length.
    + intros Ha. apply isASCII_Split with (c := comma) in Ha. unfold asciiNames in Ha.
      induction (strings.Split header comma) as [|p ps IH]; simpl; constructor.
      * simpl in Ha. apply andb_true_iff in Ha as [Hp _].
        rewrite (go_TrimSpace_ascii _ Hp). apply TrimOf_TrimSpace.
      * apply IH. simpl in Ha. apply andb_true_iff in Ha as [_ Hps]. exact Hps.
Qed.

Lemma X5_witness_blank_header :
  Go.getUserGroups (P := asciiStrings)
    {| demoMode := false; demoGroups := ["dev"]; debugMode := false |}
    {| http.Method := "GET"; http.Header := {[ "X-Forwarded-Groups" := " , Ops " ]};
       http.RemoteAddr := "" |}
  = ["" ; "Ops"].
Proof.
  refine (eq_trans (proj1 (proj2 (proj2 (X5_header_groups asciiStrings
    {| demoMode := false; demoGroups := ["dev"]; debugMode := false |}
    {| http.Method := "GET"; http.Header := {[ "X-Forwarded-Groups" := " , Ops " ]};
       http.RemoteAddr := "" |})) " , Ops " eq_refl _ _)) _).
  - vm_compute. reflexivity.
  - discriminate.
  - reflexivity.
Defined.

(** X6.  A request whose method is not GET is answered 405 with the
    method-not-allowed message; no file is read, the cluster is not
    contacted and no application is encoded. *)
Theorem X6_method_not_allowed (env : Env) (g : Globals) (w : http.ResponseWriter)
    (r : http.Request) :
  http.Method r <> "GET" ->
  snd (run (handleApps env g w r)) = []
  /\ http.Body (fst (run (handleApps env g w r)))
     = http.Body w ++ [http.Text (jsonError "method not allowed" +:+ http.newline)]
  /\ (http.Status w = None ->
      http.Status (fst (run (handleApps env g w r))) = Some 405).
Proof.
  intros H. rewrite (handleApps_not_GET _ _ _ _ H). simpl.
  split; [reflexivity|]. split; [reflexivity|].
  intros ->. reflexivity.
Qed.

Lemma X6_witness_post :
  snd (run (handleApps (sampleEnv ∅ ∅ (inr []))
              {| demoMode := false; demoGroups := []; debugMode := false |}
              http.empty
              {| http.Method := "POST"; http.Header := ∅; http.RemoteAddr := "" |})) = []
  /\ http.Status (fst (run (handleApps (sampleEnv ∅ ∅ (inr []))
              {| demoMode := false; demoGroups := []; debugMode := false |}
              http.empty
              {| http.Method := "POST"; http.Header := ∅; http.RemoteAddr := "" |})))
     = Some 405.
Proof.
  assert (Hm : http.Method {| http.Method := "POST"; http.Header := ∅;
                              http.RemoteAddr := "" |} <> "GET") by discriminate.
  split.
  - exact (proj1 (X6_method_not_allowed (sampleEnv ∅ ∅ (inr []))
             {| demoMode := false; demoGroups := []; debugMode := false |}
             http.empty _ Hm)).
  - exact (proj2 (proj2 (X6_method_not_allowed (sampleEnv ∅ ∅ (inr []))
             {| demoMode := false; demoGroups := []; debugMode := false |}
             http.empty _ Hm)) eq_refl).
Defined.

(** X7.  In demo mode the answer to a GET does not depend on the request:
    whatever headers and address two requests carry, the handler makes the
    same calls and writes the same response. *)
Theorem X7_demo_ignores_request (env : Env) (g : Globals) (w : http.ResponseWriter)
    (r1 r2 : http.Request) :
  demoMode g = true ->
  http.Method r1 = "GET" -> http.Method r2 = "GET" ->
  run (handleApps env g w r1) = run (handleApps env g w r2).
Proof.
  intros Hd H1 H2. unfold handleApps, getUserGroups. rewrite H1, H2, Hd. reflexivity.
Qed.

Lemma X7_witness_two_callers :
  run (handleApps
         (sampleEnv {[ "config.yaml" := "two entries" ]} {[ "two entries" := twoEntries ]}
            (inr []))
         {| demoMode := true; demoGroups := ["dev"]; debugMode := false |}
         http.empty getRequest)
  = run (handleApps
         (sampleEnv {[ "config.yaml" := "two entries" ]} {[ "two entries" := twoEntries ]}
            (inr []))
         {| demoMode := true; demoGroups := ["dev"]; debugMode := false |}
         http.empty
         {| http.Method := "GET"; http.Header := {[ "X-Forwarded-Groups" := "finance" ]};
            http.RemoteAddr := "10.0.0.9:4000" |}).
Proof.
  apply (X7_demo_ignores_request _
           {| demoMode := true; demoGroups := ["dev"]; debugMode := false |});
    reflexivity.
Defined.

(** X8.  The mode decides which calls a request can lead to.  In demo
    mode the handler only calls [os.ReadFile] and [yaml.Unmarshal]: it
    makes no call into client-go.  Outside demo mode it only calls
    [rest.InClusterConfig], [kubernetes.NewForConfig] and the listing: the
    program itself opens no configuration file and decodes no YAML (the
    files client-go reads on its own are not spoken of). *)
Theorem X8_mode_isolation (env : Env) (g : Globals) (w : http.ResponseWriter)
    (r : http.Request) :
  (demoMode g = true ->
   forallb isConfigCall (snd (run (handleApps env g w r))) = true
   /\ forallb (fun e => negb (isClientCall e)) (snd (run (handleApps env g w r))) = true)
  /\ (demoMode g = false ->
      forallb isClientCall (snd (run (handleApps env g w r))) = true
      /\ forallb (fun e => negb (isConfigCall e)) (snd (run (handleApps env g w r))) = true).
Proof.
  assert (Hc : forall tr, forallb isConfigCall tr = true ->
                          forallb (fun e => negb (isClientCall e)) tr = true).
  { intros tr. rewrite !forallb_forall. intros H e He. specialize (H e He).
    destruct e; simpl in *; congruence. }
  assert (Hk : forall tr, forallb isClientCall tr = true ->
                          forallb (fun e => negb (isConfigCall e)) tr = true).
  { intros tr. rewrite !forallb_forall. intros H e He. specialize (H e He).
    destruct e; simpl in *; congruence. }
  destruct (String.eqb_spec (http.Method r) "GET") as [E | E].
  - rewrite (handleApps_GET_trace _ _ _ _ E).
    split; intros ->.
    + split; [|apply Hc]; apply getDemoApps_trace.
    + split; [|apply Hk]; apply getK8sApps_trace.
  - rewrite (handleApps_not_GET _ _ _ _ E). split; intros _; split; reflexivity.
Qed.

Lemma X8_witness_calls :
  snd (run (handleApps
         (sampleEnv {[ "config.yaml" := "two entries" ]} {[ "two entries" := twoEntries ]}
            (inr []))
         {| demoMode := true; demoGroups := ["dev"]; debugMode := false |}
         http.empty getRequest))
  = [EvReadFile "/etc/dashboard/config.yaml"; EvReadFile "config.yaml";
     EvUnmarshal "two entries"]
  /\ forallb isClientCall
       (snd (run (handleApps (sampleEnv ∅ ∅ (inr []))
              {| demoMode := false; demoGroups := []; debugMode := false |}
              http.empty getRequest))) = true.
Proof.
  split; [vm_compute; reflexivity|].
  exact (proj1 (proj2 (X8_mode_isolation (sampleEnv ∅ ∅ (inr []))
           {| demoMode := false; demoGroups := []; debugMode := false |}
           http.empty getRequest) eq_refl)).
Defined.

(** X9.  Outside demo mode a GET without the [X-Forwarded-Groups] header
    is sent every enabled application of the cluster listing, restricted
    ones included. *)
Theorem X9_no_header_shows_all (env : Env) (g : Globals) (w : http.ResponseWriter)
    (r : http.Request) (c : RestConfig env) (cs : Clientset env)
    (items : list v1.Ingress) :
  demoMode g = false ->
  http.Method r = "GET" ->
  http.Header r !! "X-Forwarded-Groups" = None ->
  rest_InClusterConfig env = inr c ->
  kubernetes_NewForConfig env c = inr cs ->
  Ingresses_List env cs = inr items ->
  fst (run (handleApps env g w r)) =
  http.Write (http.JSON (k8sLoop items []))
    (http.Header_Set "Content-Type" "application/json" w).
Proof.
  intros Hd Hm Hh H1 H2 H3.
  rewrite (handleApps_GET _ _ _ _ Hm), Hd, (getK8sApps_listed _ _ _ _ H1 H2 H3).
  simpl. unfold getUserGroups, index. rewrite Hd, Hh. reflexivity.
Qed.

Lemma X9_witness_restricted_shown :
  http.Body (fst (run (handleApps
     (sampleEnv ∅ ∅ (inr [ingressOf (bagWithGroups "admins") ["a.example.com"] []]))
     {| demoMode := false; demoGroups := []; debugMode := false |}
     http.empty getRequest)))
  = [http.JSON [{| Title := ""; Icon := ""; URL := "http://a.example.com";
                   Groups := ["admins"]; Description := "" |}]].
Proof.
  rewrite (X9_no_header_shows_all
     (sampleEnv ∅ ∅ (inr [ingressOf (bagWithGroups "admins") ["a.example.com"] []]))
     {| demoMode := false; demoGroups := []; debugMode := false |}
     http.empty getRequest tt tt
     [ingressOf (bagWithGroups "admins") ["a.example.com"] []]
     eq_refl eq_refl eq_refl eq_refl eq_refl eq_refl).
  reflexivity.
Defined.

Section GoHandlerFacts.

Context {P : GoStrings}.

Lemma go_handleApps_GET (env : Env) (g : Globals) (w : http.ResponseWriter)
    (r : http.Request) :
  http.Method r = "GET" ->
  fst (run (Go.handleApps env g w r)) =
  match fst (run (if demoMode g then getDemoApps env else getK8sApps env)) with
  | (_, Some _) =>
      http.Error (http.Header_Set "Content-Type" "application/json" w)
        (jsonError "failed to fetch apps") http.StatusInternalServerError
  | (apps, None) =>
      http.Write (http.JSON (Go.filterAppsByGroups apps (Go.getUserGroups g r)))
        (http.Header_Set "Content-Type" "application/json" w)
  end.
Proof.
  intros H. unfold Go.handleApps. rewrite H. simpl negb. cbv iota.
  unfold run, io_bind.
  destruct ((if demoMode g then getDemoApps env else getK8sApps env) [])
    as [[apps [e|]] tr]; reflexivity.
Qed.

End GoHandlerFacts.

(** X10.  When the fetch succeeds, a GET is answered with status 200,
    content type [application/json] and one encoded slice of applications
    added to the body (an empty one being the nil slice, which the encoder
    writes as [null]).  The applications it holds are a subsequence of
    those fetched, and each of them is public, or the caller has no
    groups, or one of its groups is equal to one of the caller's under
    [strings.EqualFold] after [strings.TrimSpace] on both. *)
Theorem X10_success_response (P : GoStrings) (env : Env) (g : Globals)
    (w : http.ResponseWriter) (r : http.Request) (apps : list App) :
  http.Method r = "GET" ->
  fst (run (if demoMode g then getDemoApps env else getK8sApps env)) = (apps, None) ->
  exists sent : list App,
    http.Body (fst (run (Go.handleApps env g w r))) = http.Body w ++ [http.JSON sent]
    /\ sent `sublist_of` apps
    /\ (forall app, In app sent ->
          Groups app = [] \/ Go.getUserGroups g r = [] \/
          exists ag ug, In ag (Groups app) /\ In ug (Go.getUserGroups g r) /\
                        go_EqualFold (go_TrimSpace ag) (go_TrimSpace ug) = true)
    /\ http.RespHeader (fst (run (Go.handleApps env g w r))) !! "Content-Type"
       = Some "application/json"
    /\ (http.Status w = None ->
        http.Status (fst (run (Go.handleApps env g w r))) = Some 200).
Proof.
  intros Hm Hf. exists (Go.filterAppsByGroups apps (Go.getUserGroups g r)).
  rewrite (go_handleApps_GET _ _ _ _ Hm), Hf. simpl.
  split; [reflexivity|]. split; [|split; [|split]].
  - rewrite go_filter. apply filter_sublist.
  - intros app Hin. apply go_filter_In in Hin as [_ Hp].
    destruct (Go.getUserGroups g r) as [|u us] eqn:Eu; [auto|].
    destruct (Groups app) as [|a gs] eqn:Eg; [auto|].
    right. right. rewrite <- Eg.
    apply (go_passes_iff (u :: us) app); [congruence | discriminate | exact Hp].
  - apply lookup_insert_eq.
  - intros ->. reflexivity.
Qed.

Lemma X10_witness_static_listing :
  exists sent : list App,
    http.Body (fst (run (Go.handleApps (P := asciiStrings)
      (sampleEnv {[ "config.yaml" := "two entries" ]} {[ "two entries" := twoEntries ]}
         (inr []))
      {| demoMode := true; demoGroups := [" Dev"]; debugMode := false |}
      http.empty getRequest)))
    = [http.JSON sent]
    /\ sent = [{| Title := "Grafana"; Icon := ""; URL := "https://example.com";
                  Groups := ["dev"]; Description := "" |}].
Proof.
  assert (Hf : fst (run (if demoMode
                   {| demoMode := true; demoGroups := [" Dev"]; debugMode := false |}
                 then getDemoApps
                        (sampleEnv {[ "config.yaml" := "two entries" ]}
                           {[ "two entries" := twoEntries ]} (inr []))
                 else getK8sApps
                        (sampleEnv {[ "config.yaml" := "two entries" ]}
                           {[ "two entries" := twoEntries ]} (inr []))))
               = ([{| Title := "Grafana"; Icon := ""; URL := "https://example.com";
                      Groups := ["dev"]; Description := "" |}], None))
    by (vm_compute; reflexivity).
  destruct (X10_success_response asciiStrings
      (sampleEnv {[ "config.yaml" := "two entries" ]} {[ "two entries" := twoEntries ]}
         (inr []))
      {| demoMode := true; demoGroups := [" Dev"]; debugMode := false |}
      http.empty getRequest _ eq_refl Hf)
    as (sent & Hb & _).
  exists sent. split; [exact Hb|].
  vm_compute in Hb. injection Hb as <-. reflexivity.
Defined.

(** X11.  Both error answers of the handler, the 405 and the 500, leave
    with the content type [text/plain; charset=utf-8] and [nosniff]: the
    [application/json] set beforehand is replaced by [http.Error], though
    the message is a JSON object. *)
Theorem X11_error_answers_are_text_plain (env : Env) (g : Globals)
    (w : http.ResponseWriter) (r : http.Request) :
  http.Method r <> "GET" \/
  (exists apps e,
      fst (run (if demoMode g then getDemoApps env else getK8sApps env)) = (apps, Some e)) ->
  http.RespHeader (fst (run (handleApps env g w r))) !! "Content-Type"
    = Some "text/plain; charset=utf-8"
  /\ http.RespHeader (fst (run (handleApps env g w r))) !! "X-Content-Type-Options"
     = Some "nosniff".
Proof.
  intros H.
  destruct (String.eqb_spec (http.Method r) "GET") as [E | E].
  - destruct H as [H | (apps & e & H)]; [contradiction|].
    rewrite (handleApps_GET _ _ _ _ E), H.
    destruct (Error_headers (http.Header_Set "Content-Type" "application/json" w)
                (jsonError "failed to fetch apps") http.StatusInternalServerError)
      as (H1 & H2 & _).
    split; assumption.
  - rewrite (handleApps_not_GET _ _ _ _ E). cbn [fst].
    destruct (Error_headers (http.Header_Set "Content-Type" "application/json" w)
                (jsonError "method not allowed") http.StatusMethodNotAllowed)
      as (H1 & H2 & _).
    split; assumption.
Qed.

Lemma X11_witness_failed_fetch :
  http.RespHeader (fst (run (handleApps (sampleEnv ∅ ∅ (inl "connection refused"))
     {| demoMode := false; demoGroups := []; debugMode := false |}
     http.empty getRequest))) !! "Content-Type"
  = Some "text/plain; charset=utf-8"
  /\ http.RespHeader (fst (run (handleApps (sampleEnv ∅ ∅ (inl "connection refused"))
     {| demoMode := false; demoGroups := []; debugMode := false |}
     http.empty getRequest))) !! "X-Content-Type-Options"
  = Some "nosniff".
Proof.
  apply (X11_error_answers_are_text_plain (sampleEnv ∅ ∅ (inl "connection refused"))
     {| demoMode := false; demoGroups := []; debugMode := false |}
     http.empty getRequest).
  right. exists [], "connection refused". reflexivity.
Defined.

(* ===================================================================== *)
(** ** Further properties of the adapters *)
(* ===================================================================== *)

Section AdapterAlgebra.

Variable env : Env.

Lemma demoGroupsOf_run (before : list string) (data : string) (tr : list Event) :
  demoGroupsOf env before data tr =
  (match yaml_Unmarshal env data with
   | (_, Some _) => before
   | (config, None) =>
       if negb (Config_Groups config =? "")
       then List.map strings.TrimSpace (strings.Split (Config_Groups config) comma)
       else before
   end, tr ++ [EvUnmarshal data]).
Proof.
  unfold demoGroupsOf, Unmarshal, io_bind, io_ret, emit.
  destruct (yaml_Unmarshal env data) as [config [e|]]; [reflexivity|].
  destruct (negb _); reflexivity.
Qed.

Lemma loadDemoGroups_primary (before : list string) (data : string) :
  os_ReadFile env "/etc/dashboard/config.yaml" = (data, None) ->
  run (loadDemoGroups env before) =
  demoGroupsOf env before data [EvReadFile "/etc/dashboard/config.yaml"].
Proof.
  intros H. unfold run, loadDemoGroups, ReadFile, io_bind, io_ret, emit.
  simpl. rewrite H. reflexivity.
Qed.

Lemma trimmed_pieces (s : string) :
  Forall (fun u => strings.TrimSpace u = u)
    (List.map strings.TrimSpace (strings.Split s comma)).
Proof.
  induction (strings.Split s comma) as [|p ps IH]; simpl; constructor;
    [apply TrimSpace_idem | exact IH].
Qed.

Lemma demoGroupsOf_result (before : list string) (data : string) (tr : list Event) :
  fst (demoGroupsOf env before data tr) = before
  \/ (fst (demoGroupsOf env before data tr) <> []
      /\ Forall (fun u => strings.TrimSpace u = u) (fst (demoGroupsOf env before data tr))).
Proof.
  rewrite demoGroupsOf_run. simpl.
  destruct (yaml_Unmarshal env data) as [config [e|]]; [left; reflexivity|].
  destruct (negb _); [right | left; reflexivity].
  split; [|apply trimmed_pieces].
  pose proof (Split_nonempty (Config_Groups config) comma).
  destruct (strings.Split (Config_Groups config) comma); [congruence | discriminate].
Qed.

End AdapterAlgebra.

(** X12.  [loadDemoGroups] reads what [getDemoApps] reads: the same
    paths in the same order and the same bytes to the decoder.  It either
    leaves the demo groups as they were or sets them to a non-empty list
    of trimmed names; when the fetch of the applications fails in the same
    world, the read or the decoding having failed, it leaves them as they
    were. *)
Theorem X12_demo_groups_loading (env : Env) (before : list string) :
  snd (run (loadDemoGroups env before)) = snd (run (getDemoApps env))
  /\ (fst (run (loadDemoGroups env before)) = before
      \/ (fst (run (loadDemoGroups env before)) <> []
          /\ Forall (fun u => strings.TrimSpace u = u)
               (fst (run (loadDemoGroups env before)))))
  /\ (is_Some (snd (fst (run (getDemoApps env)))) ->
      fst (run (loadDemoGroups env before)) = before).
Proof.
  destruct (os_ReadFile env "/etc/dashboard/config.yaml") as [d1 [e1|]] eqn:H1.
  - destruct (os_ReadFile env "config.yaml") as [d2 [e2|]] eqn:H2.
    + rewrite (loadDemoGroups_unreadable _ _ _ _ _ _ H1 H2),
        (getDemoApps_unreadable _ _ _ _ _ H1 H2). simpl. auto.
    + rewrite (loadDemoGroups_fallback _ _ _ _ _ H1 H2),
        (getDemoApps_fallback _ _ _ _ H1 H2).
      split; [rewrite demoGroupsOf_run, demoAppsOf_run; reflexivity|].
      split; [apply demoGroupsOf_result|].
      rewrite demoGroupsOf_run, demoAppsOf_run. simpl.
      destruct (yaml_Unmarshal env d2) as [config [e|]]; [reflexivity|].
      simpl. intros [x Hx]. discriminate.
  - rewrite (loadDemoGroups_primary _ _ _ H1), (getDemoApps_primary _ _ H1).
    split; [rewrite demoGroupsOf_run, demoAppsOf_run; reflexivity|].
    split; [apply demoGroupsOf_result|].
    rewrite demoGroupsOf_run, demoAppsOf_run. simpl.
    destruct (yaml_Unmarshal env d1) as [config [e|]]; [reflexivity|].
    simpl. intros [x Hx]. discriminate.
Qed.

Lemma X12_witness_groups_from_file :
  fst (run (loadDemoGroups (sampleEnv ∅ ∅ (inr [])) ["ops"])) = ["ops"].
Proof.
  apply (proj2 (proj2 (X12_demo_groups_loading (sampleEnv ∅ ∅ (inr [])) ["ops"]))).
  vm_compute. eexists. reflexivity.
Defined.

Section LoopFacts.

Lemma demoLoop_cons (ing : IngressConfig) (rest : list IngressConfig) :
  demoLoop (ing :: rest) [] = demoLoop [ing] [] ++ demoLoop rest [].
Proof. exact (demoLoop_app [ing] rest). Qed.

Lemma k8sLoop_cons (ing : v1.Ingress) (rest : list v1.Ingress) :
  k8sLoop (ing :: rest) [] = k8sLoop [ing] [] ++ k8sLoop rest [].
Proof. exact (k8sLoop_app [ing] rest). Qed.

Lemma isEnabled_lookup (bag : gmap string string) :
  isEnabled bag = true <-> bag !! "dashboard.home/enabled" = Some "true".
Proof. apply enabled_test. Qed.

Lemma demoLoop_one (ing : IngressConfig) :
  demoLoop [ing] [] =
  if isEnabled (Annotations ing)
  then [{| Title := index (Annotations ing) "dashboard.home/title";
           Icon := index (Annotations ing) "dashboard.home/icon";
           URL := "https://example.com";
           Groups := groupsOf (Annotations ing);
           Description := index (Annotations ing) "dashboard.home/description" |}]
  else [].
Proof.
  destruct ing as [bag]. simpl Annotations.
  destruct (isEnabled bag) eqn:E.
  - apply demoLoop_enabled, isEnabled_lookup, E.
  - apply demoLoop_disabled. intros H. apply isEnabled_lookup in H. congruence.
Qed.

Lemma k8sLoop_one (ing : v1.Ingress) :
  k8sLoop [ing] [] =
  if isEnabled (v1.Annotations ing)
  then [{| Title := index (v1.Annotations ing) "dashboard.home/title";
           Icon := index (v1.Annotations ing) "dashboard.home/icon";
           URL := getIngressURL ing;
           Groups := groupsOf (v1.Annotations ing);
           Description := index (v1.Annotations ing) "dashboard.home/description" |}]
  else [].
Proof.
  destruct (isEnabled (v1.Annotations ing)) eqn:E.
  - apply k8sLoop_enabled, isEnabled_lookup, E.
  - apply k8sLoop_disabled. intros H. apply isEnabled_lookup in H. congruence.
Qed.

End LoopFacts.

(** X13.  The two adapters map annotations alike and differ in the URL
    only: the applications of a cluster listing, with their URLs replaced
    by the placeholder, are the applications the static adapter makes of
    the same bags. *)
Theorem X13_adapters_agree_up_to_url (items : list v1.Ingress) :
  List.map (withURL "https://example.com") (k8sLoop items [])
  = demoLoop (List.map configOf items) [].
Proof.
  induction items as [|ing rest IH]; [reflexivity|].
  change (List.map configOf (ing :: rest)) with (configOf ing :: List.map configOf rest).
  rewrite k8sLoop_cons, demoLoop_cons, List.map_app, IH.
  f_equal. rewrite k8sLoop_one, demoLoop_one. unfold configOf. simpl Annotations.
  destruct (isEnabled (v1.Annotations ing)); reflexivity.
Qed.

(** X14.  Each loop emits one application per enabled record and keeps
    the order of the listing: the titles are those of the enabled records
    in order; every application of the static adapter has the placeholder
    URL, and the URLs of the cluster adapter are those derived from the
    enabled records, the empty one of a record without rules included. *)
Theorem X14_one_app_per_enabled_record
    (ings : list IngressConfig) (items : list v1.Ingress) :
  List.map Title (demoLoop ings [])
  = List.map (fun ing => index (Annotations ing) "dashboard.home/title")
      (List.filter (fun ing => isEnabled (Annotations ing)) ings)
  /\ Forall (fun app => URL app = "https://example.com") (demoLoop ings [])
  /\ List.map Title (k8sLoop items [])
     = List.map (fun ing => index (v1.Annotations ing) "dashboard.home/title")
         (List.filter (fun ing => isEnabled (v1.Annotations ing)) items)
  /\ List.map URL (k8sLoop items [])
     = List.map getIngressURL
         (List.filter (fun ing => isEnabled (v1.Annotations ing)) items).
Proof.
  split; [|split; [|split]].
  - induction ings as [|ing rest IH]; [reflexivity|].
    rewrite demoLoop_cons, List.map_app, IH, demoLoop_one. simpl List.filter.
    destruct (isEnabled (Annotations ing)); reflexivity.
  - induction ings as [|ing rest IH]; [constructor|].
    rewrite demoLoop_cons, demoLoop_one.
    destruct (isEnabled (Annotations ing)); [constructor; [reflexivity|]|]; exact IH.
  - induction items as [|ing rest IH]; [reflexivity|].
    rewrite k8sLoop_cons, List.map_app, IH, k8sLoop_one. simpl List.filter.
    destruct (isEnabled (v1.Annotations ing)); reflexivity.
  - induction items as [|ing rest IH]; [reflexivity|].
    rewrite k8sLoop_cons, List.map_app, IH, k8sLoop_one. simpl List.filter.
    destruct (isEnabled (v1.Annotations ing)); reflexivity.
Qed.

(** X15.  The derived URL is empty exactly for a record without rules;
    with rules it is decided by the host of the first rule and by whether
    there is any TLS entry, so two records that agree on these get the
    same URL whatever their other rules and TLS hosts. *)
Theorem X15_url_shape (ing : v1.Ingress) :
  (getIngressURL ing = "" <-> v1.Rules (v1.Spec ing) = [])
  /\ (forall ing' : v1.Ingress,
        option_map v1.Host (hd_error (v1.Rules (v1.Spec ing)))
        = option_map v1.Host (hd_error (v1.Rules (v1.Spec ing'))) ->
        (v1.TLS (v1.Spec ing) = [] <-> v1.TLS (v1.Spec ing') = []) ->
        getIngressURL ing = getIngressURL ing').
Proof.
  unfold getIngressURL. split.
  - destruct (v1.Rules (v1.Spec ing)) as [|rule rest]; [split; reflexivity|].
    destruct (0 <? length (v1.TLS (v1.Spec ing)))%nat; split; discriminate.
  - intros ing' Hh Ht.
    destruct (v1.Rules (v1.Spec ing)) as [|[h] rest];
      destruct (v1.Rules (v1.Spec ing')) as [|[h'] rest']; simpl in Hh;
      try discriminate; [reflexivity|].
    injection Hh as <-. simpl.
    destruct (v1.TLS (v1.Spec ing)) as [|t ts];
      destruct (v1.TLS (v1.Spec ing')) as [|t' ts']; simpl; try reflexivity.
    + destruct Ht as [Ht _]. discriminate (Ht eq_refl).
    + destruct Ht as [_ Ht]. discriminate (Ht eq_refl).
Qed.

Lemma X15_witness_other_rules :
  getIngressURL (ingressOf ∅ ["a.example.com"; "b.example.com"]
                   [{| v1.Hosts := ["b.example.com"]; v1.SecretName := "b-tls" |}])
  = getIngressURL (ingressOf ∅ ["a.example.com"]
                   [{| v1.Hosts := ["a.example.com"]; v1.SecretName := "a-tls" |}]).
Proof.
  apply (proj2 (X15_url_shape (ingressOf ∅ ["a.example.com"; "b.example.com"]
                   [{| v1.Hosts := ["b.example.com"]; v1.SecretName := "b-tls" |}]))).
  - reflexivity.
  - split; discriminate.
Defined.

(* ===================================================================== *)
(** ** Static files and start-up: slices, suffixes, content types *)
(* ===================================================================== *)

Section SliceFacts.

Import strings.

Lemma str_length_app (a b : string) :
  String.length (a +:+ b) = String.length a + String.length b.
Proof.
  induction a as [|c a IH]; [reflexivity|].
  change (S (String.length (a +:+ b)) = S (String.length a + String.length b)).
  rewrite IH. reflexivity.
Qed.

Lemma substring_0_length (s : string) : substring 0 (String.length s) s = s.
Proof. induction s as [|c s IH]; simpl; [reflexivity | rewrite IH; reflexivity]. Qed.

Lemma substring_le_length (n m : nat) (s : string) :
  String.length (substring n m s) <= m.
Proof.
  revert n m. induction s as [|c s IH]; intros [|n] [|m]; simpl; try lia.
  - specialize (IH 0 m). lia.
  - apply IH.
  - apply IH.
Qed.

Lemma substring_0_le (m : nat) (s : string) :
  String.length (substring 0 m s) <= String.length s.
Proof.
  revert m. induction s as [|c s IH]; intros [|m]; simpl; try lia.
  specialize (IH m). lia.
Qed.

Lemma substring_skip (p : string) (m : nat) (s : string) :
  substring (String.length p) m (p +:+ s) = substring 0 m s.
Proof. induction p as [|c p IH]; [reflexivity | exact IH]. Qed.

Lemma substring_split (n : nat) (s : string) :
  n <= String.length s ->
  s = substring 0 n s +:+ substring n (String.length s - n) s.
Proof.
  revert n. induction s as [|c s IH]; intros [|n] H; simpl in *; try lia.
  - reflexivity.
  - rewrite substring_0_length. reflexivity.
  - change (String c s = String c (substring 0 n s +:+ substring n (String.length s - n) s)).
    rewrite <- IH by lia. reflexivity.
Qed.

(** [HasSuffix s suf] says that [s] ends with [suf]. *)
Lemma HasSuffix_iff (s suf : string) :
  HasSuffix s suf = true <-> exists p, s = p +:+ suf.
Proof.
  unfold HasSuffix. rewrite andb_true_iff, Nat.leb_le, String.eqb_eq. split.
  - intros [Hl He]. exists (substring 0 (String.length s - String.length suf) s).
    rewrite (substring_split (String.length s - String.length suf) s) at 1 by lia.
    f_equal. replace (String.length s - (String.length s - String.length suf))
      with (String.length suf) by lia. exact He.
  - intros [p ->]. rewrite str_length_app. split; [lia|].
    replace (String.length p + String.length suf - String.length suf)
      with (String.length p) by lia.
    rewrite substring_skip. apply substring_0_length.
Qed.

Lemma append_suffix_cmp (p1 a p2 b : string) :
  p1 +:+ a = p2 +:+ b -> String.length b <= String.length a ->
  exists q, a = q +:+ b.
Proof.
  revert p2. induction p1 as [|c p1 IH]; intros p2 H Hl.
  - exists p2. exact H.
  - destruct p2 as [|c2 p2].
    + exfalso. apply (f_equal String.length) in H.
      change (String c p1 +:+ a) with (String c (p1 +:+ a)) in H.
      change (EmptyString +:+ b) with b in H. simpl in H.
      rewrite str_length_app in H. lia.
    + change (String c (p1 +:+ a) = String c2 (p2 +:+ b)) in H.
      injection H as _ H. apply (IH p2 H Hl).
Qed.

(** Two endings of one string: the shorter ends the longer. *)
Lemma HasSuffix_excl (s a b : string) :
  HasSuffix s a = true -> HasSuffix a b = false -> HasSuffix b a = false ->
  HasSuffix s b = false.
Proof.
  intros Ha Hab Hba. destruct (HasSuffix s b) eqn:Hb; [|reflexivity].
  apply HasSuffix_iff in Ha as [p1 H1]. apply HasSuffix_iff in Hb as [p2 H2].
  destruct (Nat.le_ge_cases (String.length b) (String.length a)) as [Hl | Hl].
  - assert (HasSuffix a b = true); [|congruence].
    apply HasSuffix_iff. apply (append_suffix_cmp p1 a p2 b); [congruence | exact Hl].
  - assert (HasSuffix b a = true); [|congruence].
    apply HasSuffix_iff. apply (append_suffix_cmp p2 b p1 a); [congruence | exact Hl].
Qed.

Lemma TrimPrefix_slash (p : string) : TrimPrefix ("/" +:+ p) "/" = p.
Proof.
  unfold TrimPrefix, HasPrefix.
  change ("/" +:+ p) with (String "/" p). simpl.
  replace (substring 0 0 p) with EmptyString by (destruct p; reflexivity).
  simpl. rewrite Nat.sub_0_r. apply substring_0_length.
Qed.

Lemma TrimPrefix_none (p : string) : HasPrefix p "/" = false -> TrimPrefix p "/" = p.
Proof. unfold TrimPrefix. intros ->. reflexivity. Qed.

Lemma TrimSuffix_length (s suf : string) :
  String.length (TrimSuffix s suf) <= String.length s.
Proof. unfold TrimSuffix. destruct (HasSuffix s suf); [apply substring_0_le | lia]. Qed.

Lemma upper_lower_byte (a b : ascii) :
  Ascii.eqb (upperByte a) (upperByte b) = Ascii.eqb (lowerByte a) (lowerByte b).
Proof.
  assert (H : forall a, forallb (fun b => Bool.eqb (Ascii.eqb (upperByte a) (upperByte b))
                 (Ascii.eqb (lowerByte a) (lowerByte b))) allBytes = true).
  { apply (forallb_allBytes (fun a => forallb (fun b => Bool.eqb
             (Ascii.eqb (upperByte a) (upperByte b))
             (Ascii.eqb (lowerByte a) (lowerByte b))) allBytes)).
    vm_compute. reflexivity. }
  apply eqb_prop. apply (forallb_allBytes _ (H a) b).
Qed.

Lemma ToUpper_ToLower (s t : string) :
  ToUpper s = ToUpper t <-> ToLower s = ToLower t.
Proof.
  revert t. induction s as [|a s IH]; intros [|b t]; simpl; try easy.
  split; intros H; injection H as H1 H2; f_equal;
    try (apply IH; exact H2).
  - apply Ascii.eqb_eq. rewrite <- upper_lower_byte. apply Ascii.eqb_eq. exact H1.
  - apply Ascii.eqb_eq. rewrite upper_lower_byte. apply Ascii.eqb_eq. exact H1.
Qed.

End SliceFacts.

Ltac by_suffix :=
  repeat match goal with
    | |- context [strings.HasSuffix ?p ?a] =>
        let E := fresh "E" in
        destruct (strings.HasSuffix p a) eqn:E;
        [ repeat match goal with
            | |- context [strings.HasSuffix p ?b] =>
                rewrite (HasSuffix_excl p a b E eq_refl eq_refl)
            end
        | ]
    end.

(** X16.  The content type is decided by the ending of the path, and the
    nine endings do not overlap, so the order of the cases plays no part:
    each type is given exactly to the paths with its ending ([.jpg] and
    [.jpeg] share one), and [application/octet-stream] exactly to the
    paths with none of them. *)
Theorem X16_content_type_by_suffix (path : string) :
  (getContentType path = "text/html; charset=utf-8"
   <-> strings.HasSuffix path ".html" = true)
  /\ (getContentType path = "application/javascript; charset=utf-8"
      <-> strings.HasSuffix path ".js" = true)
  /\ (getContentType path = "text/css; charset=utf-8"
      <-> strings.HasSuffix path ".css" = true)
  /\ (getContentType path = "application/json; charset=utf-8"
      <-> strings.HasSuffix path ".json" = true)
  /\ (getContentType path = "image/png" <-> strings.HasSuffix path ".png" = true)
  /\ (getContentType path = "image/jpeg"
      <-> strings.HasSuffix path ".jpg" = true \/ strings.HasSuffix path ".jpeg" = true)
  /\ (getContentType path = "image/svg+xml" <-> strings.HasSuffix path ".svg" = true)
  /\ (getContentType path = "image/x-icon" <-> strings.HasSuffix path ".ico" = true)
  /\ (getContentType path = "application/octet-stream"
      <-> strings.HasSuffix path ".html" = false /\ strings.HasSuffix path ".js" = false
          /\ strings.HasSuffix path ".css" = false /\ strings.HasSuffix path ".json" = false
          /\ strings.HasSuffix path ".png" = false /\ strings.HasSuffix path ".jpg" = false
          /\ strings.HasSuffix path ".jpeg" = false /\ strings.HasSuffix path ".svg" = false
          /\ strings.HasSuffix path ".ico" = false).
Proof.
  unfold getContentType. by_suffix; cbn [orb];
    repeat split; intros; try reflexivity; try discriminate;
    repeat match goal with
      | H : _ /\ _ |- _ => destruct H
      | H : _ \/ _ |- _ => destruct H
      end; try discriminate; auto.
Qed.

(** X17.  Static files: the root path and the empty path are served as
    [index.html], and one leading slash is dropped from any path.  A path
    the embedded file system cannot read is answered 404 with the fixed
    text and nothing of the file; a path it can read is answered 200 with
    the bytes of the file and the content type of the path's ending. *)
Theorem X17_serve_static (staticFS : string -> string * option error)
    (w : http.ResponseWriter) :
  serveStatic staticFS w "/" = serveStatic staticFS w "/index.html"
  /\ serveStatic staticFS w "" = serveStatic staticFS w "/index.html"
  /\ (forall p : string,
        strings.HasPrefix p "/" = false ->
        serveStatic staticFS w ("/" +:+ p) = serveStatic staticFS w p)
  /\ (forall (p content : string) (e : error),
        p <> "" -> staticFS p = (content, Some e) ->
        serveStatic staticFS w ("/" +:+ p)
        = http.Error w "404 - Page Not Found" 404
        /\ http.Body (serveStatic staticFS w ("/" +:+ p))
           = http.Body w ++ [http.Text ("404 - Page Not Found" +:+ http.newline)])
  /\ (forall (p content : string),
        p <> "" -> staticFS p = (content, None) ->
        http.Body (serveStatic staticFS w ("/" +:+ p)) = http.Body w ++ [http.Text content]
        /\ http.RespHeader (serveStatic staticFS w ("/" +:+ p)) !! "Content-Type"
           = Some (getContentType p)
        /\ (http.Status w = None ->
            http.Status (serveStatic staticFS w ("/" +:+ p)) = Some 200)).
Proof.
  split; [reflexivity|]. split; [reflexivity|]. split; [|split].
  - intros p H. unfold serveStatic. rewrite TrimPrefix_slash, (TrimPrefix_none _ H).
    reflexivity.
  - intros p content e Hp H. unfold serveStatic. rewrite TrimPrefix_slash.
    destruct (String.eqb_spec p "") as [E | _]; [contradiction|].
    rewrite H. split; reflexivity.
  - intros p content Hp H. unfold serveStatic. rewrite TrimPrefix_slash.
    destruct (String.eqb_spec p "") as [E | _]; [contradiction|].
    rewrite H. simpl. split; [reflexivity|]. split; [apply lookup_insert_eq|].
    intros ->. reflexivity.
Qed.

Lemma X17_witness_assets :
  http.Body (serveStatic
    (fun p => if p =? "assets/app.js" then ("console.log(1)", None)
              else ("", Some "file does not exist"))
    http.empty "/assets/app.js") = [http.Text "console.log(1)"]
  /\ http.Status (serveStatic
       (fun p => if p =? "assets/app.js" then ("console.log(1)", None)
                 else ("", Some "file does not exist"))
       http.empty "/missing.png") = Some 404.
Proof.
  split.
  - refine (proj1 (proj2 (proj2 (proj2 (proj2 (X17_serve_static
      (fun p => if p =? "assets/app.js" then ("console.log(1)", None)
                else ("", Some "file does not exist")) http.empty))))
      "assets/app.js" "console.log(1)" _ eq_refl)).
    discriminate.
  - refine (f_equal http.Status (proj1 (proj1 (proj2 (proj2 (proj2 (X17_serve_static
      (fun p => if p =? "assets/app.js" then ("console.log(1)", None)
                else ("", Some "file does not exist")) http.empty))))
      "missing.png" "" "file does not exist" _ eq_refl))).
    discriminate.
Defined.

(** X18.  Start-up: demo mode is on only for [DEMO_MODE] equal to the
    exact text [true], while debug mode is on for [LOG_LEVEL] equal to
    [debug] in any mix of upper and lower case.  Outside demo mode no file
    is read and the demo groups stay empty; in demo mode they are what
    [loadDemoGroups] makes of the empty list.  The server listens on the
    port of [PORT], on 8080 when it is unset. *)
Theorem X18_startup (getenv : string -> string) (env : Env) :
  (demoMode (fst (fst (run (main getenv env)))) = true <-> getenv "DEMO_MODE" = "true")
  /\ (debugMode (fst (fst (run (main getenv env)))) = true
      <-> strings.EqualFold (getenv "LOG_LEVEL") "debug" = true)
  /\ (getenv "DEMO_MODE" <> "true" ->
      demoGroups (fst (fst (run (main getenv env)))) = []
      /\ snd (run (main getenv env)) = [])
  /\ (getenv "DEMO_MODE" = "true" ->
      demoGroups (fst (fst (run (main getenv env)))) = fst (run (loadDemoGroups env []))
      /\ snd (run (main getenv env)) = snd (run (loadDemoGroups env [])))
  /\ (getenv "PORT" = "" -> snd (fst (run (main getenv env))) = ":8080")
  /\ (getenv "PORT" <> "" ->
      snd (fst (run (main getenv env))) = ":" +:+ getenv "PORT").
Proof.
  unfold main, run, io_bind.
  destruct (String.eqb_spec (getenv "DEMO_MODE") "true") as [Ed | Ed].
  - destruct (loadDemoGroups env [] []) as [groups tr] eqn:El. simpl.
    split; [tauto|]. split; [|split; [|split; [|split]]].
    + rewrite String.eqb_eq, EqualFold_ToLower.
      change "DEBUG" with (strings.ToUpper "debug"). apply ToUpper_ToLower.
    + intros H. contradiction.
    + intros _. auto.
    + intros ->. reflexivity.
    + intros H. destruct (String.eqb_spec (getenv "PORT") ""); [contradiction | reflexivity].
  - simpl. split; [split; [discriminate | contradiction]|].
    split; [|split; [|split; [|split]]].
    + rewrite String.eqb_eq, EqualFold_ToLower.
      change "DEBUG" with (strings.ToUpper "debug"). apply ToUpper_ToLower.
    + intros _. auto.
    + intros H. contradiction.
    + intros ->. reflexivity.
    + intros H. destruct (String.eqb_spec (getenv "PORT") ""); [contradiction | reflexivity].
Qed.

Lemma X18_witness_environment :
  fst (run (main (fun k => if k =? "DEMO_MODE" then "TRUE"
                           else if k =? "LOG_LEVEL" then "Debug" else "")
              (sampleEnv ∅ ∅ (inr []))))
  = ({| demoMode := false; demoGroups := []; debugMode := true |}, ":8080")
  /\ snd (run (main (fun k => if k =? "DEMO_MODE" then "TRUE"
                           else if k =? "LOG_LEVEL" then "Debug" else "")
              (sampleEnv ∅ ∅ (inr [])))) = [].
Proof.
  split; [reflexivity|].
  apply (proj2 (proj1 (proj2 (proj2 (X18_startup
     (fun k => if k =? "DEMO_MODE" then "TRUE"
               else if k =? "LOG_LEVEL" then "Debug" else "")
     (sampleEnv ∅ ∅ (inr []))))) ltac:(discriminate))).
Defined.

(* ===================================================================== *)
(** ** The two revisions of the filter *)
(* ===================================================================== *)

Section RevisionFacts.

Import strings.

Lemma lowerByte_space (c : ascii) : isSpace (lowerByte c) = isSpace c.
Proof.
  apply eqb_prop.
  apply (forallb_allBytes (fun c => Bool.eqb (isSpace (lowerByte c)) (isSpace c))).
  vm_compute. reflexivity.
Qed.

Lemma ToLower_trimLeft (s : string) : ToLower (trimLeft s) = trimLeft (ToLower s).
Proof.
  induction s as [|c s IH]; simpl; [reflexivity|].
  rewrite lowerByte_space. destruct (isSpace c); [exact IH | reflexivity].
Qed.

Lemma ToLower_trimRight (s : string) : ToLower (trimRight s) = trimRight (ToLower s).
Proof.
  induction s as [|c s IH]; simpl; [reflexivity|].
  rewrite <- IH, lowerByte_space.
  destruct (trimRight s) as [|b t]; simpl; [destruct (isSpace c)|]; reflexivity.
Qed.

(** Trimming and lower-casing can be done in either order. *)
Lemma ToLower_TrimSpace (s : string) : ToLower (TrimSpace s) = TrimSpace (ToLower s).
Proof. unfold TrimSpace. rewrite ToLower_trimRight, ToLower_trimLeft. reflexivity. Qed.

Lemma earlier_matchUserGroups_lower (a : string) (userGroups : list string) :
  ToLower a = a -> (forall u, In u userGroups -> ToLower u = u) ->
  Earlier.matchUserGroups a userGroups = matchUserGroups a userGroups.
Proof.
  intros Ha. induction userGroups as [|u rest IH]; intros Hu; simpl; [reflexivity|].
  rewrite IH by (intros x Hx; apply Hu; right; exact Hx).
  assert (E : (TrimSpace a =? TrimSpace u)%string = EqualFold (TrimSpace a) (TrimSpace u)).
  { apply eq_true_iff_eq. rewrite String.eqb_eq, EqualFold_ToLower, !ToLower_TrimSpace.
    rewrite Ha, (Hu u (or_introl eq_refl)). reflexivity. }
  rewrite E. reflexivity.
Qed.

Lemma earlier_matchAppGroups_lower (appGroups userGroups : list string) :
  (forall a, In a appGroups -> ToLower a = a) ->
  (forall u, In u userGroups -> ToLower u = u) ->
  Earlier.matchAppGroups appGroups userGroups = matchAppGroups appGroups userGroups.
Proof.
  intros Ha Hu. induction appGroups as [|a rest IH]; simpl; [reflexivity|].
  rewrite IH by (intros x Hx; apply Ha; right; exact Hx).
  rewrite (earlier_matchUserGroups_lower a userGroups (Ha a (or_introl eq_refl)) Hu).
  reflexivity.
Qed.

Lemma earlier_filter (apps : list App) (userGroups : list string) :
  Earlier.filterAppsByGroups apps userGroups =
  List.filter (fun app => (length userGroups =? 0)%nat || (length (Groups app) =? 0)%nat
                          || Earlier.matchAppGroups (Groups app) userGroups) apps.
Proof.
  unfold Earlier.filterAppsByGroups. destruct (length userGroups =? 0)%nat eqn:E.
  - induction apps as [|app rest IH]; simpl; [reflexivity|].
    f_equal. exact IH.
  - induction apps as [|app rest IH]; [reflexivity|].
    cbn [Earlier.filterLoop List.filter orb].
    destruct (length (Groups app) =? 0)%nat; cbn [orb];
      [|destruct (Earlier.matchAppGroups _ _)];
      rewrite ?(earlier_filterLoop_acc rest userGroups ([] ++ [app])); cbn [List.app];
      rewrite IH; reflexivity.
Qed.

End RevisionFacts.

(** In the ASCII model the two revisions agree on lower-case names. *)
Lemma earlier_agree_lower (apps : list App) (userGroups : list string) :
  (forall app a, In app apps -> In a (Groups app) -> strings.ToLower a = a) ->
  (forall u, In u userGroups -> strings.ToLower u = u) ->
  Earlier.filterAppsByGroups apps userGroups = filterAppsByGroups apps userGroups.
Proof.
  intros Ha Hu. rewrite earlier_filter, filterAppsByGroups_filter.
  apply filter_ext_passes. intros app Hin. rewrite passes_unfold.
  rewrite (earlier_matchAppGroups_lower (Groups app) userGroups); [reflexivity | | exact Hu].
  intros a. apply Ha. exact Hin.
Qed.

Section GoRevisionFacts.

Context {P : GoStrings}.

Lemma go_earlier_matchUserGroups (a : string) (userGroups : list string) :
  Go.earlier_matchUserGroups a userGroups = true -> Go.matchUserGroups a userGroups = true.
Proof.
  induction userGroups as [|u rest IH]; simpl; [discriminate|].
  destruct (String.eqb_spec (go_TrimSpace a) (go_TrimSpace u)) as [-> | _].
  - rewrite go_EqualFold_refl. reflexivity.
  - intros H. rewrite (IH H). destruct (go_EqualFold _ _); reflexivity.
Qed.

Lemma go_earlier_matchAppGroups (appGroups userGroups : list string) :
  Go.earlier_matchAppGroups appGroups userGroups = true ->
  Go.matchAppGroups appGroups userGroups = true.
Proof.
  induction appGroups as [|a rest IH]; simpl; [discriminate|].
  destruct (Go.earlier_matchUserGroups a userGroups) eqn:E.
  - rewrite (go_earlier_matchUserGroups _ _ E). reflexivity.
  - intros H. rewrite (IH H). destruct (Go.matchUserGroups a userGroups); reflexivity.
Qed.

Lemma go_earlier_filterLoop_acc (apps : list App) (userGroups : list string)
    (filtered : list App) :
  Go.earlier_filterLoop apps userGroups filtered =
  filtered ++ Go.earlier_filterLoop apps userGroups [].
Proof.
  revert filtered. induction apps as [|app rest IH]; intros filtered; simpl.
  - rewrite app_nil_r. reflexivity.
  - destruct (length (Groups app) =? 0)%nat; [|destruct (Go.earlier_matchAppGroups _ _)].
    + rewrite (IH (filtered ++ [app])), (IH [app]), <- app_assoc. reflexivity.
    + rewrite (IH (filtered ++ [app])), (IH [app]), <- app_assoc. reflexivity.
    + apply IH.
Qed.

Lemma go_earlier_filter (apps : list App) (userGroups : list string) :
  Go.earlier_filterAppsByGroups apps userGroups =
  List.filter (fun app => (length userGroups =? 0)%nat || (length (Groups app) =? 0)%nat
                          || Go.earlier_matchAppGroups (Groups app) userGroups) apps.
Proof.
  unfold Go.earlier_filterAppsByGroups. destruct (length userGroups =? 0)%nat eqn:E.
  - induction apps as [|app rest IH]; simpl; [reflexivity|].
    f_equal. exact IH.
  - induction apps as [|app rest IH]; [reflexivity|].
    cbn [Go.earlier_filterLoop List.filter orb].
    destruct (length (Groups app) =? 0)%nat; cbn [orb];
      [|destruct (Go.earlier_matchAppGroups _ _)];
      rewrite ?(go_earlier_filterLoop_acc rest userGroups ([] ++ [app])); cbn [List.app];
      rewrite IH; reflexivity.
Qed.

Lemma go_earlier_matchUserGroups_ascii (a : string) (userGroups : list string) :
  isASCII a = true -> asciiNames userGroups = true ->
  Go.earlier_matchUserGroups a userGroups = Earlier.matchUserGroups a userGroups.
Proof.
  intros Ha. unfold asciiNames.
  induction userGroups as [|u rest IH]; simpl; [reflexivity|].
  intros H. apply andb_true_iff in H as [Hu Hrest].
  rewrite (go_TrimSpace_ascii _ Ha), (go_TrimSpace_ascii _ Hu), (IH Hrest). reflexivity.
Qed.

Lemma go_earlier_matchAppGroups_ascii (appGroups userGroups : list string) :
  asciiNames appGroups = true -> asciiNames userGroups = true ->
  Go.earlier_matchAppGroups appGroups userGroups = Earlier.matchAppGroups appGroups userGroups.
Proof.
  unfold asciiNames at 1. intros Ha Hu.
  induction appGroups as [|a rest IH]; simpl; [reflexivity|].
  simpl in Ha. apply andb_true_iff in Ha as [Ha Hrest].
  rewrite (go_earlier_matchUserGroups_ascii _ _ Ha Hu), (IH Hrest). reflexivity.
Qed.

Lemma go_earlier_filter_ascii (apps : list App) (userGroups : list string) :
  forallb (fun app => asciiNames (Groups app)) apps = true ->
  asciiNames userGroups = true ->
  Go.earlier_filterAppsByGroups apps userGroups = Earlier.filterAppsByGroups apps userGroups.
Proof.
  intros Ha Hu. rewrite go_earlier_filter, earlier_filter.
  induction apps as [|app rest IH]; [reflexivity|].
  simpl in Ha. apply andb_true_iff in Ha as [Happ Hrest].
  simpl. rewrite (go_earlier_matchAppGroups_ascii _ _ Happ Hu), (IH Hrest). reflexivity.
Qed.

End GoRevisionFacts.

(** X19.  The later revision of the filter only ever adds to what the
    earlier one showed: the earlier list is a subsequence of the later
    one, whatever the names; and the two revisions give the same list
    whenever every group name, of the applications and of the caller, is
    ASCII and in lower case. *)
Theorem X19_revisions_of_the_filter (P : GoStrings) (apps : list App)
    (userGroups : list string) :
  Go.earlier_filterAppsByGroups apps userGroups
    `sublist_of` Go.filterAppsByGroups apps userGroups
  /\ ((forall app a, In app apps -> In a (Groups app) ->
                     isASCII a = true /\ strings.ToLower a = a) ->
      (forall u, In u userGroups -> isASCII u = true /\ strings.ToLower u = u) ->
      Go.earlier_filterAppsByGroups apps userGroups = Go.filterAppsByGroups apps userGroups).
Proof.
  split.
  - rewrite go_earlier_filter, go_filter. apply filter_sublist_impl.
    intros app H. rewrite go_passes_unfold.
    destruct (length userGroups =? 0)%nat; [reflexivity|].
    destruct (length (Groups app) =? 0)%nat; [reflexivity|].
    simpl in *. apply go_earlier_matchAppGroups. exact H.
  - intros Ha Hu.
    assert (Hu' : asciiNames userGroups = true).
    { apply forallb_forall. intros u Hin. apply (Hu u Hin). }
    assert (Ha' : forallb (fun app => asciiNames (Groups app)) apps = true).
    { apply forallb_forall. intros app Hin. apply forallb_forall.
      intros a Hia. apply (Ha app a Hin Hia). }
    rewrite (go_earlier_filter_ascii _ _ Ha' Hu'), (go_filter_ascii _ _ Ha' Hu').
    apply earlier_agree_lower.
    + intros app a H1 H2. apply (Ha app a H1 H2).
    + intros u H. apply (Hu u H).
Qed.

Lemma X19_witness_lower_case :
  Go.earlier_filterAppsByGroups (P := asciiStrings)
    [{| Title := "Grafana"; Icon := ""; URL := ""; Groups := ["ops"; " admins"];
        Description := "" |}] ["admins "]
  = Go.filterAppsByGroups (P := asciiStrings)
    [{| Title := "Grafana"; Icon := ""; URL := ""; Groups := ["ops"; " admins"];
        Description := "" |}] ["admins "].
Proof.
  apply (proj2 (X19_revisions_of_the_filter asciiStrings _ ["admins "])).
  - intros app a [<- | []] [<- | [<- | []]]; split; reflexivity.
  - intros u [<- | []]. split; reflexivity.
Defined.

(* ===================================================================== *)
(** ** The chart's names *)
(* ===================================================================== *)

Section ChartFacts.

Import strings.

Lemma trunc_length (c : nat) (s : string) : String.length (helpers.trunc c s) <= c.
Proof.
  unfold helpers.trunc. destruct (Nat.ltb_spec c (String.length s));
    [apply substring_le_length | lia].
Qed.

Lemma trimSuffix_trunc_length (c : nat) (suf s : string) :
  String.length (helpers.trimSuffix suf (helpers.trunc c s)) <= c.
Proof.
  unfold helpers.trimSuffix.
  pose proof (TrimSuffix_length (helpers.trunc c s) suf).
  pose proof (trunc_length c s). lia.
Qed.

Lemma substring_0_prefix (n : nat) (s : string) :
  exists rest, s = substring 0 n s +:+ rest.
Proof.
  revert n. induction s as [|c s IH]; intros [|n]; simpl.
  - exists EmptyString. reflexivity.
  - exists EmptyString. reflexivity.
  - exists (String c s). reflexivity.
  - destruct (IH n) as [rest H]. exists rest.
    change (String c s = String c (substring 0 n s +:+ rest)). rewrite <- H. reflexivity.
Qed.

Lemma str_app_assoc (a b c : string) : (a +:+ b) +:+ c = a +:+ (b +:+ c).
Proof.
  induction a as [|x a IH]; [reflexivity|].
  change (String x ((a +:+ b) +:+ c) = String x (a +:+ (b +:+ c))).
  rewrite IH. reflexivity.
Qed.

Lemma trimSuffix_trunc_prefix (c : nat) (suf s : string) :
  exists rest, s = helpers.trimSuffix suf (helpers.trunc c s) +:+ rest.
Proof.
  assert (Ht : exists r1, s = helpers.trunc c s +:+ r1).
  { unfold helpers.trunc. destruct (c <? String.length s)%nat;
      [apply substring_0_prefix | exists EmptyString].
    clear. induction s as [|x s IH]; [reflexivity|].
    change (String x s = String x (s +:+ EmptyString)). rewrite <- IH. reflexivity. }
  destruct Ht as [r1 H1].
  unfold helpers.trimSuffix, TrimSuffix.
  destruct (HasSuffix (helpers.trunc c s) suf); [|exists r1; exact H1].
  destruct (substring_0_prefix
              (String.length (helpers.trunc c s) - String.length suf)
              (helpers.trunc c s)) as [r2 H2].
  exists (r2 +:+ r1). rewrite <- str_app_assoc, <- H2. exact H1.
Qed.

Lemma Contains_substring (n m : nat) (s : string) (c : ascii) :
  Contains s c = false -> Contains (substring n m s) c = false.
Proof.
  revert n m. induction s as [|x s IH]; intros [|n] [|m] H; simpl in *; try reflexivity;
    try exact H.
  - apply orb_false_iff in H as [H1 H2]. rewrite H1. simpl. apply IH. exact H2.
  - apply orb_false_iff in H as [H1 H2]. apply IH. exact H2.
  - apply orb_false_iff in H as [H1 H2]. apply IH. exact H2.
Qed.

Lemma Contains_Replace (s : string) (old new : ascii) :
  old <> new -> Contains (Replace s old new) old = false.
Proof.
  intros Hne. induction s as [|x s IH]; simpl; [reflexivity|].
  rewrite IH, orb_false_r.
  destruct (Ascii.eqb_spec x old) as [-> | Hx].
  - apply Ascii.eqb_neq. congruence.
  - apply Ascii.eqb_neq. exact Hx.
Qed.

End ChartFacts.

(** X20.  The chart's name, full name and chart label are at most 63
    bytes long, and each is the beginning of the text it is cut from: the
    name of the chart name or its override, the full name of the full-name
    override when there is one, otherwise of the release name, alone when
    it contains the name and followed by a dash and the name when not. *)
Theorem X20_chart_names_fit (c : helpers.Context) :
  String.length (helpers.name c) <= 63
  /\ String.length (helpers.fullname c) <= 63
  /\ String.length (helpers.chart c) <= 63
  /\ (exists rest,
        helpers.default (helpers.Chart_Name c) (helpers.Values_nameOverride c)
        = helpers.name c +:+ rest)
  /\ (helpers.Values_fullnameOverride c <> "" ->
      exists rest, helpers.Values_fullnameOverride c = helpers.fullname c +:+ rest)
  /\ (helpers.Values_fullnameOverride c = "" ->
      exists rest,
        (if helpers.contains
              (helpers.default (helpers.Chart_Name c) (helpers.Values_nameOverride c))
              (helpers.Release_Name c)
         then helpers.Release_Name c
         else helpers.Release_Name c +:+ "-" +:+
              helpers.default (helpers.Chart_Name c) (helpers.Values_nameOverride c))
        = helpers.fullname c +:+ rest).
Proof.
  unfold helpers.name, helpers.fullname, helpers.chart.
  split; [apply trimSuffix_trunc_length|].
  split; [|split; [apply trimSuffix_trunc_length|]].
  - destruct (negb _); [|destruct (helpers.contains _ _)]; apply trimSuffix_trunc_length.
  - split; [apply trimSuffix_trunc_prefix|]. split.
    + intros H. destruct (String.eqb_spec (helpers.Values_fullnameOverride c) "");
        [contradiction|]. simpl. apply trimSuffix_trunc_prefix.
    + intros ->. simpl. destruct (helpers.contains _ _); apply trimSuffix_trunc_prefix.
Qed.

(** X21.  The chart label holds no plus sign, whatever the chart's name
    and version: each one was replaced by an underscore before the label
    was cut to length. *)
Theorem X21_chart_label_has_no_plus (c : helpers.Context) :
  strings.Contains (helpers.chart c) (ascii_of_nat 43) = false.
Proof.
  unfold helpers.chart, helpers.trimSuffix, helpers.trunc, helpers.replace,
    strings.TrimSuffix.
  set (s := strings.Replace _ _ _).
  assert (Hs : strings.Contains s (ascii_of_nat 43) = false)
    by (apply Contains_Replace; discriminate).
  assert (Ht : strings.Contains (if (63 <? String.length s)%nat
                                 then substring 0 63 s else s) (ascii_of_nat 43) = false).
  { destruct (63 <? String.length s)%nat; [apply Contains_substring|]; exact Hs. }
  destruct (strings.HasSuffix _ "-"); [apply Contains_substring|]; exact Ht.
Qed.

(* ===================================================================== *)
(** ** Writing a groups annotation and reading it back *)
(* ===================================================================== *)

Section RoundTrip.

Import strings.





End RoundTrip.


